(** * Dablo rules engine: a shallow embedding and its checked properties

    The development follows the layout of the Python package:
    [dablo/core/pieces.py], [dablo/core/player.py], [dablo/core/config.py],
    [dablo/core/rules.py], [dablo/core/game.py] and the part of
    [dablo/ai/players.py] that scores king safety.

    Positions.  The program stores a position as a pair of floats.  The
    nodes of the board have integer coordinates ("primary" nodes) or
    integer coordinates plus one half ("secondary" nodes), and every
    coordinate the engine computes is obtained from such values by adding
    or subtracting 0.5, 1.0 or a difference of two coordinates, all of
    which are exact in binary floating point.  A position is therefore
    modelled by the pair of its coordinates multiplied by two: [(r, c)]
    of the program is [(2*r, 2*c)] here, so [(3.5, 0.5)] is [(7, 1)].
    Positions handed in by a caller are taken from the same lattice of
    half steps; it extends beyond the board in every direction.

    Containers.  A Python [dict] is a [gmap], a Python [set] is a [gset].
    Where the program iterates over a set the model iterates over
    [elements]; the statements below only speak about membership, never
    about the order of an iteration. *)

From Stdlib Require Import ZArith QArith Lia.
From stdpp Require Import gmap list strings.

Open Scope Z_scope.

Abbreviation Pos := (Z * Z)%type.

(** ** dablo/core/pieces.py *)

Inductive PieceType :=
  | EMPTY
  | P1_WARRIOR | P1_PRINCE | P1_KING
  | P2_WARRIOR | P2_PRINCE | P2_KING.

#[global] Instance PieceType_eq_dec : EqDecision PieceType.
Proof. solve_decision. Defined.

(** The integer behind each member of the [IntEnum]. *)
Definition value (p : PieceType) : Z :=
  match p with
  | EMPTY => 0
  | P1_WARRIOR => 1 | P1_PRINCE => 2 | P1_KING => 3
  | P2_WARRIOR => -1 | P2_PRINCE => -2 | P2_KING => -3
  end.

Definition get_piece_rank (p : PieceType) : Z := Z.abs (value p).

Definition can_capture (attacker target : PieceType) : bool :=
  if bool_decide (target = EMPTY ∨ attacker = EMPTY) then false
  else if bool_decide ((0 <? value attacker) = (0 <? value target)) then false
  else Z.abs (value target) <=? Z.abs (value attacker).

(** ** dablo/core/player.py *)

Inductive Player := P1 | P2.

#[global] Instance Player_eq_dec : EqDecision Player.
Proof. solve_decision. Defined.

Definition player_value (p : Player) : Z :=
  match p with P1 => 1 | P2 => -1 end.

Definition opponent (p : Player) : Player :=
  if bool_decide (p = P1) then P2 else P1.

(** ** dablo/core/config.py *)

Record DabloConfig := {
  board_rows : Z;
  board_cols : Z;
  move_limit : Z;
  p1_setup : list (PieceType * list Pos);
  p2_setup : list (PieceType * list Pos)
}.

(** [range(n)] of Python, on integers. *)
Definition range (n : Z) : list Z := seqZ 0 n.

(** The default layouts, in doubled coordinates. *)
Definition default_p1_setup : list (PieceType * list Pos) :=
  [ (P1_KING, [(6, 8)]);
    (P1_PRINCE, [(7, 7)]);
    (P1_WARRIOR,
       ((λ c, (10, 2 * c)) <$> range 5)
       ++ ((λ c, (9, 2 * c + 1)) <$> range 4)
       ++ ((λ c, (8, 2 * c)) <$> range 5)) ].

Definition default_p2_setup : list (PieceType * list Pos) :=
  [ (P2_KING, [(4, 0)]);
    (P2_PRINCE, [(3, 1)]);
    (P2_WARRIOR,
       ((λ c, (0, 2 * c)) <$> range 5)
       ++ ((λ c, (1, 2 * c + 1)) <$> range 4)
       ++ ((λ c, (2, 2 * c)) <$> range 5)) ].

Definition create_default : DabloConfig :=
  {| board_rows := 6; board_cols := 5; move_limit := 500;
     p1_setup := default_p1_setup; p2_setup := default_p2_setup |}.

(** The field constraints that the configuration record validates. *)
Definition config_in_bounds (cfg : DabloConfig) : Prop :=
  3 ≤ board_rows cfg ≤ 10 ∧ 3 ≤ board_cols cfg ≤ 10
  ∧ 50 ≤ move_limit cfg ≤ 2000.

(** ** dablo/core/rules.py *)

Inductive WinReason :=
  | KING_CAPTURE | LONE_KING | MOVE_LIMIT | STALEMATE | KINGS_ONLY_DRAW.

#[global] Instance WinReason_eq_dec : EqDecision WinReason.
Proof. solve_decision. Defined.

Record Move := {
  from_pos : Pos;
  to_pos : Pos;
  capture_pos : option Pos
}.

#[global] Instance Move_eq_dec : EqDecision Move.
Proof. solve_decision. Defined.

Definition is_capture (m : Move) : bool :=
  match capture_pos m with Some _ => true | None => false end.

Module MovementValidator.

Definition is_forward_move (from to : Pos) (is_player1 : bool) : bool :=
  let row_diff := to.1 - from.1 in
  if is_player1 then row_diff <? 0 else 0 <? row_diff.

(** [adjacency_graph.get(pos1, [])] *)
Definition neighbours (adjacency_graph : gmap Pos (list Pos)) (pos : Pos)
  : list Pos :=
  default [] (adjacency_graph !! pos).

Definition is_adjacent (pos1 pos2 : Pos)
    (adjacency_graph : gmap Pos (list Pos)) : bool :=
  bool_decide (pos2 ∈ neighbours adjacency_graph pos1).

(** The two differences 0.5 and 1.5 of the program are 1 and 3 here. *)
Definition calculate_capture_landing (from capture : Pos) : Pos :=
  let row_diff := capture.1 - from.1 in
  let col_diff := capture.2 - from.2 in
  if bool_decide ((Z.abs row_diff, Z.abs col_diff) = (1, 3)
                  ∨ (Z.abs row_diff, Z.abs col_diff) = (3, 1))
  then (capture.1 + (if 0 <? row_diff then 1 else -1),
        capture.2 + (if 0 <? col_diff then 1 else -1))
  else (capture.1 + row_diff, capture.2 + col_diff).

End MovementValidator.

Module GameRules.
Import MovementValidator.

Definition is_valid_regular_move (from to : Pos) (piece : PieceType)
    (board_state : gmap Pos PieceType)
    (adjacency_graph : gmap Pos (list Pos)) : bool :=
  if bool_decide (board_state !! to ≠ Some EMPTY) then false
  else if negb (is_adjacent from to adjacency_graph) then false
  else
    let is_player1 := 0 <? value piece in
    if negb (is_forward_move from to is_player1) then false
    else true.

Definition is_valid_capture_move (from capture landing : Pos)
    (attacker target : PieceType)
    (board_state : gmap Pos PieceType)
    (adjacency_graph : gmap Pos (list Pos)) : bool :=
  if bool_decide (board_state !! landing ≠ Some EMPTY) then false
  else if negb (can_capture attacker target) then false
  else if negb (is_adjacent from capture adjacency_graph) then false
  else
    let expected_landing := calculate_capture_landing from capture in
    if bool_decide (landing ≠ expected_landing) then false
    else true.

Definition check_win_condition
    (p1_pieces_count p2_pieces_count : Z)
    (p1_king_exists p2_king_exists : bool)
    (move_count move_limit : Z)
    (has_valid_moves : bool)
    (current_player : Player) : option Player * option WinReason :=
  if negb p1_king_exists then (Some P2, Some KING_CAPTURE)
  else if negb p2_king_exists then (Some P1, Some KING_CAPTURE)
  else if bool_decide (p1_pieces_count = 1 ∧ p2_pieces_count = 1)
    then (None, Some KINGS_ONLY_DRAW)
  else if bool_decide (p1_pieces_count = 1 ∧ 1 < p2_pieces_count)
    then (Some P2, Some LONE_KING)
  else if bool_decide (p2_pieces_count = 1 ∧ 1 < p1_pieces_count)
    then (Some P1, Some LONE_KING)
  else if bool_decide (move_limit ≤ move_count)
    then (None, Some MOVE_LIMIT)
  else if negb has_valid_moves
    then (Some (opponent current_player), Some STALEMATE)
  else (None, None).

End GameRules.

(** ** dablo/core/game.py: the board graph *)

(** The candidate neighbours of a node: eight for a primary node (both
    coordinates integral, that is, even once doubled), four otherwise. *)
Definition potential_neighbors (pos : Pos) : list Pos :=
  let '(r, c) := pos in
  if Z.even r && Z.even c then
    [ (r - 2, c); (r + 2, c); (r, c - 2); (r, c + 2);
      (r - 1, c - 1); (r - 1, c + 1); (r + 1, c - 1); (r + 1, c + 1) ]
  else
    [ (r - 1, c - 1); (r - 1, c + 1); (r + 1, c - 1); (r + 1, c + 1) ].

(** The positions added by the two nested loops, in the order of the
    loops. *)
Definition node_list (rows cols : Z) : list Pos :=
  r_int ← range rows; c_int ← range cols;
  (2 * r_int, 2 * c_int)
    :: (if bool_decide (r_int < rows - 1 ∧ c_int < cols - 1)
        then [(2 * r_int + 1, 2 * c_int + 1)] else []).

(** The local variable [all_nodes] of [_create_board_graph]. *)
Definition all_nodes (rows cols : Z) : gset Pos :=
  list_to_set (node_list rows cols).

Definition _create_board_graph (config : DabloConfig)
  : gmap Pos (list Pos) :=
  let nodes := all_nodes (board_rows config) (board_cols config) in
  let graph : gmap Pos (list Pos) := gset_to_gmap [] nodes in
  map_imap
    (λ current_pos _,
       Some (filter (λ neighbor, neighbor ∈ nodes)
                    (potential_neighbors current_pos)))
    graph.

(** ** dablo/core/game.py: the game object *)

(** A lookup [d[k]] of a missing key raises [KeyError]; a computation that
    can do so returns in [exn]. *)
Inductive exn (A : Type) : Type :=
  | Return (a : A)
  | KeyError.
Arguments Return {A} a.
Arguments KeyError {A}.

Definition exn_bind {A B : Type} (x : exn A) (k : A → exn B) : exn B :=
  match x with
  | Return a => k a
  | KeyError => KeyError
  end.

Notation "x ←! e1 ; e2" := (exn_bind e1 (λ x, e2))
  (at level 100, e1 at next level, e2 at level 200, right associativity,
   only parsing).

(** The fields of [DabloGame] that the rules read or write.  [positions]
    (a sorted copy of the graph's keys, used for rendering) and
    [initial_piece_counts] (never assigned) are left out. *)
Record DabloGame := {
  config : DabloConfig;
  board_state : gmap Pos PieceType;
  nodes : gmap Pos (list Pos);
  current_player : Player;
  game_over : bool;
  winner : option Player;
  win_reason : option WinReason;
  capture_sequence : bool;
  capturing_piece : option Pos;
  move_count : Z;
  last_captured_piece : option PieceType;
  p1_pieces : gset Pos;
  p2_pieces : gset Pos
}.

(** Assignments to single attributes. *)
Definition set_board_state (g : DabloGame) (b : gmap Pos PieceType) :=
  {| config := config g; board_state := b; nodes := nodes g;
     current_player := current_player g; game_over := game_over g;
     winner := winner g; win_reason := win_reason g;
     capture_sequence := capture_sequence g;
     capturing_piece := capturing_piece g; move_count := move_count g;
     last_captured_piece := last_captured_piece g;
     p1_pieces := p1_pieces g; p2_pieces := p2_pieces g |}.

Definition set_p1_pieces (g : DabloGame) (s : gset Pos) :=
  {| config := config g; board_state := board_state g; nodes := nodes g;
     current_player := current_player g; game_over := game_over g;
     winner := winner g; win_reason := win_reason g;
     capture_sequence := capture_sequence g;
     capturing_piece := capturing_piece g; move_count := move_count g;
     last_captured_piece := last_captured_piece g;
     p1_pieces := s; p2_pieces := p2_pieces g |}.

Definition set_p2_pieces (g : DabloGame) (s : gset Pos) :=
  {| config := config g; board_state := board_state g; nodes := nodes g;
     current_player := current_player g; game_over := game_over g;
     winner := winner g; win_reason := win_reason g;
     capture_sequence := capture_sequence g;
     capturing_piece := capturing_piece g; move_count := move_count g;
     last_captured_piece := last_captured_piece g;
     p1_pieces := p1_pieces g; p2_pieces := s |}.

Definition set_current_player (g : DabloGame) (p : Player) :=
  {| config := config g; board_state := board_state g; nodes := nodes g;
     current_player := p; game_over := game_over g;
     winner := winner g; win_reason := win_reason g;
     capture_sequence := capture_sequence g;
     capturing_piece := capturing_piece g; move_count := move_count g;
     last_captured_piece := last_captured_piece g;
     p1_pieces := p1_pieces g; p2_pieces := p2_pieces g |}.

Definition set_move_count (g : DabloGame) (n : Z) :=
  {| config := config g; board_state := board_state g; nodes := nodes g;
     current_player := current_player g; game_over := game_over g;
     winner := winner g; win_reason := win_reason g;
     capture_sequence := capture_sequence g;
     capturing_piece := capturing_piece g; move_count := n;
     last_captured_piece := last_captured_piece g;
     p1_pieces := p1_pieces g; p2_pieces := p2_pieces g |}.

Definition set_last_captured_piece (g : DabloGame) (p : option PieceType) :=
  {| config := config g; board_state := board_state g; nodes := nodes g;
     current_player := current_player g; game_over := game_over g;
     winner := winner g; win_reason := win_reason g;
     capture_sequence := capture_sequence g;
     capturing_piece := capturing_piece g; move_count := move_count g;
     last_captured_piece := p;
     p1_pieces := p1_pieces g; p2_pieces := p2_pieces g |}.

(** [capture_sequence] and [capturing_piece] are always assigned
    together. *)
Definition set_capture_sequence (g : DabloGame) (b : bool) (p : option Pos) :=
  {| config := config g; board_state := board_state g; nodes := nodes g;
     current_player := current_player g; game_over := game_over g;
     winner := winner g; win_reason := win_reason g;
     capture_sequence := b;
     capturing_piece := p; move_count := move_count g;
     last_captured_piece := last_captured_piece g;
     p1_pieces := p1_pieces g; p2_pieces := p2_pieces g |}.

Definition end_game (g : DabloGame) (w : Player) (reason : option WinReason) :=
  {| config := config g; board_state := board_state g; nodes := nodes g;
     current_player := current_player g; game_over := true;
     winner := Some w; win_reason := reason;
     capture_sequence := capture_sequence g;
     capturing_piece := capturing_piece g; move_count := move_count g;
     last_captured_piece := last_captured_piece g;
     p1_pieces := p1_pieces g; p2_pieces := p2_pieces g |}.

Definition add_piece (g : DabloGame) (pos : Pos) (piece_type : PieceType)
  : bool * DabloGame :=
  match board_state g !! pos with
  | None => (false, g)
  | Some occupant =>
      if bool_decide (occupant ≠ EMPTY) then (false, g)
      else
        let g1 := set_board_state g (<[pos := piece_type]> (board_state g)) in
        if 0 <? value piece_type
        then (true, set_p1_pieces g1 ({[pos]} ∪ p1_pieces g1))
        else if value piece_type <? 0
        then (true, set_p2_pieces g1 ({[pos]} ∪ p2_pieces g1))
        else (true, g1)
  end.

(** [board_state.get(pos, EMPTY)] reads; the assignment that follows
    creates the key when it was missing. *)
Definition remove_piece (g : DabloGame) (pos : Pos) : PieceType * DabloGame :=
  let removed_piece := default EMPTY (board_state g !! pos) in
  let g1 := set_board_state g (<[pos := EMPTY]> (board_state g)) in
  if 0 <? value removed_piece
  then (removed_piece, set_p1_pieces g1 (p1_pieces g1 ∖ {[pos]}))
  else if value removed_piece <? 0
  then (removed_piece, set_p2_pieces g1 (p2_pieces g1 ∖ {[pos]}))
  else (removed_piece, g1).

Definition clear_board (g : DabloGame) : DabloGame :=
  let g1 := set_board_state g ((λ _, EMPTY) <$> board_state g) in
  set_p2_pieces (set_p1_pieces g1 ∅) ∅.

(** [pieces] lists the items of the dictionary argument in its order. *)
Definition setup_custom_position (g : DabloGame)
    (pieces : list (Pos * PieceType)) : DabloGame :=
  foldl (λ acc item,
           if bool_decide (item.2 ≠ EMPTY)
           then (add_piece acc item.1 item.2).2 else acc)
        (clear_board g) pieces.

Definition add_setup (g : DabloGame) (setup : list (PieceType * list Pos))
  : DabloGame :=
  foldl (λ acc item,
           foldl (λ acc' pos, (add_piece acc' pos item.1).2) acc item.2)
        g setup.

Definition _setup_initial_pieces (g : DabloGame) : DabloGame :=
  let g1 := set_board_state g (gset_to_gmap EMPTY (dom (nodes g))) in
  let g2 := set_p2_pieces (set_p1_pieces g1 ∅) ∅ in
  add_setup (add_setup g2 (p1_setup (config g2))) (p2_setup (config g2)).

(** The constructor [DabloGame(config, initial_state)]. *)
Definition __init__ (cfg : DabloConfig) (initial_state : string) : DabloGame :=
  let g := {| config := cfg; board_state := ∅;
              nodes := _create_board_graph cfg;
              current_player := P1; game_over := false;
              winner := None; win_reason := None;
              capture_sequence := false; capturing_piece := None;
              move_count := 0; last_captured_piece := None;
              p1_pieces := ∅; p2_pieces := ∅ |} in
  if bool_decide (initial_state = "empty") then g
  else _setup_initial_pieces g.

(** The moves that the loop body of [get_valid_moves] appends for one
    neighbour: a regular move, a capture, or nothing. *)
Definition moves_via (g : DabloGame) (pos : Pos) (piece : PieceType)
    (neighbor_pos : Pos) : list Move :=
  let target_piece := default EMPTY (board_state g !! neighbor_pos) in
  if bool_decide (target_piece = EMPTY) then
    if GameRules.is_valid_regular_move
         pos neighbor_pos piece (board_state g) (nodes g)
    then [ {| from_pos := pos; to_pos := neighbor_pos; capture_pos := None |} ]
    else []
  else
    let is_opponent := value piece * value target_piece <? 0 in
    if is_opponent then
      let landing_pos :=
        MovementValidator.calculate_capture_landing pos neighbor_pos in
      if GameRules.is_valid_capture_move
           pos neighbor_pos landing_pos piece target_piece
           (board_state g) (nodes g)
      then [ {| from_pos := pos; to_pos := landing_pos;
                capture_pos := Some neighbor_pos |} ]
      else []
    else [].

(** [not piece] holds for a missing key and for [EMPTY], whose integer
    is zero. *)
Definition get_valid_moves (g : DabloGame) (pos : Pos) : list Move :=
  match board_state g !! pos with
  | None => []
  | Some piece =>
      if bool_decide (piece = EMPTY)
         || negb (Bool.eqb (0 <? value piece)
                           (0 <? player_value (current_player g)))
      then []
      else
        neighbor_pos ← MovementValidator.neighbours (nodes g) pos;
        moves_via g pos piece neighbor_pos
  end.

Definition player_pieces (g : DabloGame) (p : Player) : gset Pos :=
  if bool_decide (p = P1) then p1_pieces g else p2_pieces g.

Definition get_all_valid_moves (g : DabloGame) : list Move :=
  match capture_sequence g, capturing_piece g with
  | true, Some piece_pos => get_valid_moves g piece_pos
  | _, _ =>
      pos ← elements (player_pieces g (current_player g));
      get_valid_moves g pos
  end.

(** The loop of [get_king_position]: [board_state[pos]] raises for a
    position of the set that is no key of the board. *)
Fixpoint find_king (board : gmap Pos PieceType) (king_type : PieceType)
    (l : list Pos) : exn (option Pos) :=
  match l with
  | [] => Return None
  | pos :: l' =>
      match board !! pos with
      | None => KeyError
      | Some piece =>
          if bool_decide (piece = king_type) then Return (Some pos)
          else find_king board king_type l'
      end
  end.

Definition get_king_position (g : DabloGame) (player : Player)
  : exn (option Pos) :=
  let king_type := if bool_decide (player = P1) then P1_KING else P2_KING in
  find_king (board_state g) king_type (elements (player_pieces g player)).

(** [if winner:] is taken for both players ([-1] and [1] are true) and
    skipped for [None]. *)
Definition _check_game_state (g : DabloGame) : exn DabloGame :=
  let has_valid_moves :=
    match get_all_valid_moves g with [] => false | _ => true end in
  p1_king_pos ←! get_king_position g P1;
  p2_king_pos ←! get_king_position g P2;
  let '(w, reason) :=
    GameRules.check_win_condition
      (Z.of_nat (size (p1_pieces g))) (Z.of_nat (size (p2_pieces g)))
      (bool_decide (p1_king_pos ≠ None)) (bool_decide (p2_king_pos ≠ None))
      (move_count g) (move_limit (config g))
      has_valid_moves (current_player g) in
  match w with
  | Some w' => Return (end_game g w' reason)
  | None => Return g
  end.

(** The second component of the result of [make_move]: the dictionary
    with the single key ["error"], or the dictionary describing the
    executed move. *)
Inductive MoveInfo :=
  | InfoError (error : string)
  | InfoMove (info_is_capture chain_capture_available : bool)
             (piece_moved : PieceType) (captured_piece : option PieceType).

Definition chain_available (i : MoveInfo) : bool :=
  match i with
  | InfoError _ => false
  | InfoMove _ chain _ _ => chain
  end.

(** The last four statements of [make_move]. *)
Definition end_turn (g : DabloGame) (info : MoveInfo)
  : exn (DabloGame * (bool * MoveInfo)) :=
  let g1 := set_capture_sequence g false None in
  let g2 := set_current_player g1 (opponent (current_player g1)) in
  g3 ←! _check_game_state g2;
  Return (g3, (true, info)).

(** The state after the piece was lifted from [from_pos], put down on
    [to_pos] and the counter was incremented. *)
Definition relocate (g : DabloGame) (move : Move) : PieceType * DabloGame :=
  let r := remove_piece g (from_pos move) in
  let moving_piece := r.1 in
  let g2 := (add_piece r.2 (to_pos move) moving_piece).2 in
  (moving_piece, set_move_count g2 (move_count g2 + 1)).

(** The captures that keep the chain going after [move]. *)
Definition additional_captures (g : DabloGame) (move : Move) : list Move :=
  filter (λ m, to_pos m ≠ from_pos move)
         (filter (λ m, is_capture m = true) (get_valid_moves g (to_pos move))).

Definition make_move (g : DabloGame) (move : Move)
  : exn (DabloGame * (bool * MoveInfo)) :=
  if game_over g then Return (g, (false, InfoError "Game is over"))
  else
    let '(moving_piece, g1) := relocate g move in
    match capture_pos move with
    | Some cpos =>
        let r := remove_piece g1 cpos in
        let captured := r.1 in
        let g2 := set_last_captured_piece r.2 (Some captured) in
        match additional_captures g2 move with
        | _ :: _ =>
            Return (set_capture_sequence g2 true (Some (to_pos move)),
                    (true, InfoMove true true moving_piece (Some captured)))
        | [] => end_turn g2 (InfoMove true false moving_piece (Some captured))
        end
    | None => end_turn g1 (InfoMove false false moving_piece None)
    end.

(** Applying a list of moves in order, stopping at the first exception. *)
Fixpoint play (g : DabloGame) (moves : list Move) : exn DabloGame :=
  match moves with
  | [] => Return g
  | m :: ms => r ←! make_move g m; play r.1 ms
  end.

(** ** dablo/ai/config.py

    The weights are decimal constants; they are modelled by the rational
    numbers they denote. *)

Record DifficultySettings := {
  capture_preference : Q;
  king_safety : Q;
  forward_progress : Q;
  randomness : Q
}.

Record KingSafetyConfig := {
  capture_danger_penalty : Q;
  immediate_threat_penalty : Q;
  close_distance_penalty : Q;
  medium_distance_penalty : Q;
  safe_distance_bonus : Q;
  very_safe_bonus : Q;
  immediate_danger_threshold : Q;
  close_danger_threshold : Q;
  medium_safety_threshold : Q
}.

(** The defaults of [KingSafetyConfig], which [npc_config.king_safety]
    holds. *)
Definition npc_king_safety : KingSafetyConfig :=
  {| capture_danger_penalty := (-5)%Q;
     immediate_threat_penalty := (-50)%Q;
     close_distance_penalty := (-4)%Q;
     medium_distance_penalty := (-2)%Q;
     safe_distance_bonus := (2 # 10)%Q;
     very_safe_bonus := (5 # 10)%Q;
     immediate_danger_threshold := (11 # 10)%Q;
     close_danger_threshold := (16 # 10)%Q;
     medium_safety_threshold := (25 # 10)%Q |}.

Definition easy : DifficultySettings :=
  {| capture_preference := (6 # 10)%Q; king_safety := (2 # 10)%Q;
     forward_progress := (3 # 10)%Q; randomness := (4 # 10)%Q |}.

Definition medium : DifficultySettings :=
  {| capture_preference := (8 # 10)%Q; king_safety := (5 # 10)%Q;
     forward_progress := (5 # 10)%Q; randomness := (25 # 100)%Q |}.

Definition hard : DifficultySettings :=
  {| capture_preference := 1%Q; king_safety := (7 # 10)%Q;
     forward_progress := (8 # 10)%Q; randomness := (8 # 100)%Q |}.

Definition aggressive : DifficultySettings :=
  {| capture_preference := (15 # 10)%Q; king_safety := (3 # 10)%Q;
     forward_progress := 1%Q; randomness := (3 # 100)%Q |}.

Definition defensive : DifficultySettings :=
  {| capture_preference := (3 # 10)%Q; king_safety := (15 # 10)%Q;
     forward_progress := (2 # 10)%Q; randomness := (18 # 100)%Q |}.

Definition get_difficulty_settings (difficulty : string) : DifficultySettings :=
  if bool_decide (difficulty = "easy") then easy
  else if bool_decide (difficulty = "medium") then medium
  else if bool_decide (difficulty = "hard") then hard
  else if bool_decide (difficulty = "aggressive") then aggressive
  else if bool_decide (difficulty = "defensive") then defensive
  else medium.

(** ** dablo/ai/players.py: king safety of [SmartNPCPlayer] *)

Record SmartNPCPlayer := {
  player_id : Player;
  settings : DifficultySettings
}.

(** [SmartNPCPlayer(player_id, difficulty)] *)
Definition new_SmartNPCPlayer (p : Player) (difficulty : string)
  : SmartNPCPlayer :=
  {| player_id := p; settings := get_difficulty_settings difficulty |}.

(** [self.opponent_id = -self.player_id] is the integer of the other
    player; the game only compares it with [Player.P1] and with zero. *)
Definition opponent_id (npc : SmartNPCPlayer) : Player :=
  match player_id npc with P1 => P2 | P2 => P1 end.

(** [pop] removes the key [from_pos] from the copy. *)
Definition _simulate_move_on_board (board : gmap Pos PieceType) (move : Move)
  : gmap Pos PieceType :=
  let moving_piece := default EMPTY (board !! from_pos move) in
  let new_board := <[to_pos move := moving_piece]> (delete (from_pos move) board) in
  match capture_pos move with
  | Some cpos => <[cpos := EMPTY]> new_board
  | None => new_board
  end.

(** A game built with [initial_state="empty"], whose board is then
    replaced.  The two sets of occupied positions stay as the constructor
    left them. *)
Definition _create_temp_game_state (npc : SmartNPCPlayer)
    (original_game : DabloGame) (board : gmap Pos PieceType)
    (player_to_move : option Player) : DabloGame :=
  let temp_game := __init__ (config original_game) "empty" in
  let temp_game := set_board_state temp_game board in
  set_current_player temp_game (default (player_id npc) player_to_move).

(** The first king of the given type among the items of the board.  The
    program takes the first in the dictionary's order; the two agree
    whenever the board holds at most one such king. *)
Definition find_king_on_board (board : gmap Pos PieceType)
    (king_type : PieceType) : option Pos :=
  (λ found, found.2.1)
    <$> list_find (λ item, item.2 = king_type) (map_to_list board).

(** The square of the distance between two positions, in the units of
    the program (the quarter undoes the doubling of the coordinates). *)
Definition dist_sq (a b : Pos) : Q :=
  (((a.1 - b.1) * (a.1 - b.1) + (a.2 - b.2) * (a.2 - b.2)) # 4)%Q.

Definition Qltb (x y : Q) : bool := negb (Qle_bool y x).

Definition Qmin_list (d : Q) (l : list Q) : Q :=
  foldr (λ x acc, if Qle_bool x acc then x else acc) d l.

(** The program compares the distance [sqrt d2] with a positive
    threshold [t]; the model compares [d2] with [t * t]. *)
Definition closer_than (d2 t : Q) : bool := Qltb d2 (t * t)%Q.

Definition _evaluate_king_safety (npc : SmartNPCPlayer) (game : DabloGame)
    (move : Move) (board_after_move : gmap Pos PieceType) : Q :=
  let king_type := if bool_decide (player_id npc = P1) then P1_KING else P2_KING in
  match find_king_on_board board_after_move king_type with
  | None => immediate_threat_penalty npc_king_safety
  | Some king_pos =>
      let temp_game :=
        _create_temp_game_state npc game board_after_move
                                (Some (opponent_id npc)) in
      if existsb (λ opp_move,
                    is_capture opp_move
                    && bool_decide (capture_pos opp_move = Some king_pos))
                 (get_all_valid_moves temp_game)
      then capture_danger_penalty npc_king_safety
      else
        let enemy_positions :=
          (λ item, dist_sq king_pos item.1)
            <$> filter (λ item : Pos * PieceType,
                          item.2 ≠ EMPTY
                          ∧ (0 <? value item.2)
                            ≠ (0 <? player_value (player_id npc)))
                       (map_to_list board_after_move) in
        match enemy_positions with
        | [] => very_safe_bonus npc_king_safety
        | d :: ds =>
            let min_dist := Qmin_list d ds in
            if closer_than min_dist (immediate_danger_threshold npc_king_safety)
            then close_distance_penalty npc_king_safety
            else if closer_than min_dist (close_danger_threshold npc_king_safety)
            then medium_distance_penalty npc_king_safety
            else if closer_than min_dist (medium_safety_threshold npc_king_safety)
            then safe_distance_bonus npc_king_safety
            else very_safe_bonus npc_king_safety
        end
  end.

(** The summand of [_evaluate_move] that scores king safety. *)
Definition king_safety_term (npc : SmartNPCPlayer) (game : DabloGame)
    (move : Move) : Q :=
  let board_after_move := _simulate_move_on_board (board_state game) move in
  (_evaluate_king_safety npc game move board_after_move
   * king_safety (settings npc))%Q.

(** ** Notions used by the statements *)

(** Squared length of the segment between two positions (in doubled
    coordinates, hence four times the program's). *)
Definition sq_dist (a b : Pos) : Z :=
  (b.1 - a.1) * (b.1 - a.1) + (b.2 - a.2) * (b.2 - a.2).

(** The two sets of occupied positions agree with the board mapping. *)
Definition pieces_in_sync (g : DabloGame) : Prop :=
  ∀ pos : Pos,
    (pos ∈ p1_pieces g
       ↔ ∃ piece, board_state g !! pos = Some piece ∧ 0 < value piece)
    ∧ (pos ∈ p2_pieces g
       ↔ ∃ piece, board_state g !! pos = Some piece ∧ value piece < 0).

(** Games obtained from the constructor by the public mutators. *)
Inductive built : DabloGame → Prop :=
  | built_init cfg initial_state : built (__init__ cfg initial_state)
  | built_add_piece g pos piece_type :
      built g → built (add_piece g pos piece_type).2
  | built_remove_piece g pos :
      built g → built (remove_piece g pos).2
  | built_clear_board g :
      built g → built (clear_board g)
  | built_setup_custom_position g pieces :
      built g → built (setup_custom_position g pieces)
  | built_make_move g move g' r :
      built g → make_move g move = Return (g', r) → built g'.

Definition king_of (p : Player) : PieceType :=
  if bool_decide (p = P1) then P1_KING else P2_KING.

(** The king of [p] stands somewhere on the board. *)
Definition king_on_board (g : DabloGame) (p : Player) : Prop :=
  ∃ pos, board_state g !! pos = Some (king_of p).

(** The state of [make_move] at the point where it decides whether the
    capture chain continues: the piece is relocated, the counter is
    incremented and, for a capture, the captured piece is removed. *)
Definition moved (g : DabloGame) (move : Move) : DabloGame :=
  let g1 := (relocate g move).2 in
  match capture_pos move with
  | Some cpos =>
      let r := remove_piece g1 cpos in
      set_last_captured_piece r.2 (Some r.1)
  | None => g1
  end.

(** The dictionary that [make_move] returns with a successful move. *)
Definition move_info (g : DabloGame) (move : Move) (chain : bool) : MoveInfo :=
  let g1 := (relocate g move).2 in
  InfoMove (is_capture move) chain (relocate g move).1
           (match capture_pos move with
            | Some cpos => Some (remove_piece g1 cpos).1
            | None => None
            end).

(** What the piece operations leave alone. *)
Definition same_turn_state (g g' : DabloGame) : Prop :=
  config g' = config g ∧ nodes g' = nodes g
  ∧ current_player g' = current_player g ∧ game_over g' = game_over g
  ∧ winner g' = winner g ∧ win_reason g' = win_reason g
  ∧ capture_sequence g' = capture_sequence g
  ∧ capturing_piece g' = capturing_piece g.


#[global] Instance king_on_board_dec (g : DabloGame) (p : Player) :
  Decision (king_on_board g p).
Proof.
  refine (cast_if (decide (Exists (λ item : Pos * PieceType, item.2 = king_of p)
                                  (map_to_list (board_state g)))));
    unfold king_on_board; rewrite Exists_exists in *.
  - destruct e as ([pos piece] & Hin & Hking). exists pos.
    apply elem_of_map_to_list in Hin. simpl in Hking. by subst.
  - intros (pos & Hpos). apply n. exists (pos, king_of p).
    split; [by apply elem_of_map_to_list | done].
Defined.

(** The game and the dictionary of a call of [make_move] that reported
    success. *)
Definition accepted (r : exn (DabloGame * (bool * MoveInfo)))
  : option (DabloGame * MoveInfo) :=
  match r with
  | Return (g', (true, info)) => Some (g', info)
  | _ => None
  end.

(** ** Concrete games *)

Definition mk_move (from to : Pos) : Move :=
  {| from_pos := from; to_pos := to; capture_pos := None |}.

Definition mk_capture (from to captured : Pos) : Move :=
  {| from_pos := from; to_pos := to; capture_pos := Some captured |}.

(** A configuration with the default board and the given layouts. *)
Definition layout_config (rows cols limit : Z)
    (p1 p2 : list (PieceType * list Pos)) : DabloConfig :=
  {| board_rows := rows; board_cols := cols; move_limit := limit;
     p1_setup := p1; p2_setup := p2 |}.

(** The standard game. *)
Definition standard_game : DabloGame := __init__ create_default "default".

(** A warrior of the first row of Player 1 sent to the empty centre
    square (2.0, 2.0), two rows away and not adjacent. *)
Definition far_jump : Move := mk_move (8, 0) (4, 4).

(** Player 1 has the king alone on (3.0, 2.0); Player 2 has the king on
    (0.0, 0.0) and a warrior on (2.0, 2.0), in front of the king of
    Player 1. *)
Definition kings_game : DabloGame :=
  __init__ (layout_config 6 5 500
              [ (P1_KING, [(6, 4)]) ]
              [ (P2_KING, [(0, 0)]); (P2_WARRIOR, [(4, 4)]) ])
           "default".

Definition king_takes_warrior : Move := mk_capture (6, 4) (2, 4) (4, 4).

(** Two warriors of Player 2 that a warrior of Player 1 can take one
    after the other: (4.0, 2.0) over (3.0, 2.0) to (2.0, 2.0), then over
    (2.0, 1.0) to (2.0, 0.0). *)
Definition chain_game : DabloGame :=
  __init__ (layout_config 6 5 500
              [ (P1_KING, [(10, 8)]); (P1_WARRIOR, [(8, 4)]) ]
              [ (P2_KING, [(0, 0)]); (P2_WARRIOR, [(6, 4); (4, 2)]) ])
           "default".

Definition first_capture : Move := mk_capture (8, 4) (4, 4) (6, 4).

(** The king of Player 1 on (4.0, 2.0) faces the king of Player 2 on
    (3.0, 2.0); behind the landing square (2.0, 2.0) a warrior of
    Player 2 stands on (1.0, 2.0) with (0.0, 2.0) free. *)
Definition regicide_game : DabloGame :=
  __init__ (layout_config 6 5 500
              [ (P1_KING, [(8, 4)]); (P1_WARRIOR, [(10, 8)]) ]
              [ (P2_KING, [(6, 4)]); (P2_WARRIOR, [(2, 4); (0, 0)]) ])
           "default".

Definition king_takes_king : Move := mk_capture (8, 4) (4, 4) (6, 4).

(** A 10 x 10 board with the smallest move limit.  Each side has a king
    and a warrior on its own back row, far from the other side. *)
Definition long_game : DabloGame :=
  __init__ (layout_config 10 10 50
              [ (P1_KING, [(18, 0)]); (P1_WARRIOR, [(18, 4)]) ]
              [ (P2_KING, [(0, 18)]); (P2_WARRIOR, [(0, 14)]) ])
           "default".

(** Step [i] of a piece that zigzags forward between a primary column
    and the secondary column next to it: the pieces of Player 1 walk up
    from row 9.0, those of Player 2 walk down from row 0.0. *)
Definition zig (c i : Z) : Z := if Z.even i then c else c + 1.

Definition zag (c i : Z) : Z := if Z.even i then c else c - 1.

Definition p1_step (c i : Z) : Move :=
  mk_move (18 - i, zig c i) (18 - (i + 1), zig c (i + 1)).

Definition p2_step (c i : Z) : Move :=
  mk_move (i, zag c i) (i + 1, zag c (i + 1)).

(** Fifty moves: the two kings walk eighteen steps each, then the two
    warriors seven steps each, the players alternating. *)
Definition long_game_moves : list Move :=
  (i ← range 18; [p1_step 0 i; p2_step 18 i])
  ++ (i ← range 7; [p1_step 4 i; p2_step 14 i]).

(** Playing a list of moves, each of which must be among the moves that
    [get_all_valid_moves] offers and must be accepted by [make_move]. *)
Fixpoint legal_play (g : DabloGame) (moves : list Move) : option DabloGame :=
  match moves with
  | [] => Some g
  | m :: ms =>
      if bool_decide (m ∈ get_all_valid_moves g) then
        match make_move g m with
        | Return (g', (true, _)) => legal_play g' ms
        | _ => None
        end
      else None
  end.

(** The king of Player 1 on (3.0, 2.0) next to the king of Player 2 on
    (2.0, 2.0), with (4.0, 2.0) behind it free; a warrior of Player 1 on
    (5.0, 4.0) can step forward to (4.0, 4.0). *)
Definition exposed_king_game : DabloGame :=
  __init__ (layout_config 6 5 500
              [ (P1_KING, [(6, 4)]); (P1_WARRIOR, [(10, 8)]) ]
              [ (P2_KING, [(4, 4)]); (P2_WARRIOR, [(0, 0)]) ])
           "default".

Definition quiet_step : Move := mk_move (10, 8) (8, 8).

Definition medium_npc : SmartNPCPlayer := new_SmartNPCPlayer P1 "medium".

(** The standard board without any piece set up. *)
Definition empty_game : DabloGame := __init__ create_default "empty".

(** As [regicide_game], without the warrior behind the landing square. *)
Definition last_move_game : DabloGame :=
  __init__ (layout_config 6 5 500
              [ (P1_KING, [(8, 4)]); (P1_WARRIOR, [(10, 8)]) ]
              [ (P2_KING, [(6, 4)]); (P2_WARRIOR, [(0, 0)]) ])
           "default".

(** ** Further functions of the package *)

(** *** dablo/core/player.py and dablo/core/pieces.py *)

(** [Player.from_int]; [None] stands for the [ValueError] raised for
    zero. *)
Definition from_int (v : Z) : option Player :=
  if 0 <? v then Some P1
  else if v <? 0 then Some P2
  else None.

(** [BASE_PIECE_VALUES.get(rank, 0.0)], the four values being 0.0, 1.0,
    3.0 and 10.0. *)
Definition get_piece_value (piece : PieceType) : Q :=
  let rank := Z.abs (value piece) in
  if bool_decide (rank = 0) then 0%Q
  else if bool_decide (rank = 1) then 1%Q
  else if bool_decide (rank = 2) then 3%Q
  else if bool_decide (rank = 3) then 10%Q
  else 0%Q.

#[global] Instance PieceType_countable : Countable PieceType.
Proof.
  refine (inj_countable' value
            (λ v, if bool_decide (v = 1) then P1_WARRIOR
                  else if bool_decide (v = 2) then P1_PRINCE
                  else if bool_decide (v = 3) then P1_KING
                  else if bool_decide (v = -1) then P2_WARRIOR
                  else if bool_decide (v = -2) then P2_PRINCE
                  else if bool_decide (v = -3) then P2_KING
                  else EMPTY) _).
  by intros [].
Defined.

#[global] Instance Player_countable : Countable Player.
Proof.
  refine (inj_countable' player_value
            (λ v, if bool_decide (v = 1) then P1 else P2) _).
  by intros [].
Defined.

(** *** dablo/core/utils.py *)

(** [counts[piece] = counts.get(piece, 0) + 1] for one value of the
    board. *)
Definition count_one (piece : PieceType) (counts : gmap PieceType Z)
  : gmap PieceType Z :=
  <[piece := default 0 (counts !! piece) + 1]> counts.

Definition count_pieces (board : gmap Pos PieceType) : gmap PieceType Z :=
  map_fold (λ _ piece counts, count_one piece counts) ∅ board.

(** The seven positions of [get_center_positions], doubled. *)
Definition get_center_positions : list Pos :=
  [ (5, 4); (5, 3); (5, 5); (4, 4); (6, 4); (5, 2); (5, 6) ].

Definition calculate_center_control (board : gmap Pos PieceType) : Z * Z :=
  foldl (λ acc pos,
           let piece := default EMPTY (board !! pos) in
           if 0 <? value piece then (acc.1 + 1, acc.2)
           else if value piece <? 0 then (acc.1, acc.2 + 1)
           else acc)
        (0, 0) get_center_positions.

(** The dictionary of [analyze_board_features], one field per key. *)
Record BoardFeatures := {
  f_p1_pieces : Z;
  f_p2_pieces : Z;
  f_p1_warriors : Z;
  f_p1_princes : Z;
  f_p1_kings : Z;
  f_p2_warriors : Z;
  f_p2_princes : Z;
  f_p2_kings : Z;
  f_piece_difference : Z;
  f_p1_king_pos : option Pos;
  f_p2_king_pos : option Pos;
  f_p1_center_control : Z;
  f_p2_center_control : Z;
  f_move_count : Z
}.

Definition analyze_board_features (board : gmap Pos PieceType)
    (move_count : Z) (p1_king_pos p2_king_pos : option Pos) : BoardFeatures :=
  let piece_counts_by_type := count_pieces board in
  let p1_warriors := default 0 (piece_counts_by_type !! P1_WARRIOR) in
  let p1_princes := default 0 (piece_counts_by_type !! P1_PRINCE) in
  let p1_kings := default 0 (piece_counts_by_type !! P1_KING) in
  let p2_warriors := default 0 (piece_counts_by_type !! P2_WARRIOR) in
  let p2_princes := default 0 (piece_counts_by_type !! P2_PRINCE) in
  let p2_kings := default 0 (piece_counts_by_type !! P2_KING) in
  let p1_total_pieces := p1_warriors + p1_princes + p1_kings in
  let p2_total_pieces := p2_warriors + p2_princes + p2_kings in
  let center := calculate_center_control board in
  {| f_p1_pieces := p1_total_pieces;
     f_p2_pieces := p2_total_pieces;
     f_p1_warriors := p1_warriors;
     f_p1_princes := p1_princes;
     f_p1_kings := p1_kings;
     f_p2_warriors := p2_warriors;
     f_p2_princes := p2_princes;
     f_p2_kings := p2_kings;
     f_piece_difference := p1_total_pieces - p2_total_pieces;
     f_p1_king_pos := p1_king_pos;
     f_p2_king_pos := p2_king_pos;
     f_p1_center_control := center.1;
     f_p2_center_control := center.2;
     f_move_count := move_count |}.

(** *** dablo/ai/config.py and dablo/ai/players.py: threats *)

(** [npc_config.evaluation.max_threat_value] and
    [npc_config.move_selection.min_piece_value_for_protection]. *)
Definition max_threat_value : Q := 3%Q.
Definition min_piece_value_for_protection : Q := 2%Q.

(** [min(a, b)] of Python: the first argument unless the second is
    strictly smaller. *)
Definition py_min (a b : Q) : Q := if Qltb b a then b else a.

Definition _evaluate_threat_creation (npc : SmartNPCPlayer) (game : DabloGame)
    (board_after_move : gmap Pos PieceType) : Q :=
  let temp_game :=
    _create_temp_game_state npc game board_after_move (Some (player_id npc)) in
  let capture_moves :=
    filter (λ m, is_capture m = true) (get_all_valid_moves temp_game) in
  let threat_value :=
    foldl (λ acc m,
             (acc + get_piece_value
                      (default EMPTY
                         (capture_pos m ≫= (board_state temp_game !!.))))%Q)
          0%Q capture_moves in
  py_min (threat_value * (3 # 10))%Q max_threat_value.

(** The memo table of the player and its two counters.  A key is the
    board (two dictionaries have the same sorted tuple of items exactly
    when they are equal), the target position and the player. *)
Record ThreatCache := {
  _threat_cache : gmap (gmap Pos PieceType * Pos * Player) Z;
  _threat_cache_hits : Z;
  _threat_cache_misses : Z
}.

(** The state of a new player, and the state after [clear_cache]. *)
Definition new_cache : ThreatCache :=
  {| _threat_cache := ∅; _threat_cache_hits := 0; _threat_cache_misses := 0 |}.

Definition clear_cache (c : ThreatCache) : ThreatCache :=
  {| _threat_cache := ∅;
     _threat_cache_hits := _threat_cache_hits c;
     _threat_cache_misses := _threat_cache_misses c |}.

Definition _get_threat_level (npc : SmartNPCPlayer) (c : ThreatCache)
    (game : DabloGame) (pos : Pos) (for_player_id : Player)
  : Z * ThreatCache :=
  let cache_key := (board_state game, pos, for_player_id) in
  match _threat_cache c !! cache_key with
  | Some known =>
      (known,
       {| _threat_cache := _threat_cache c;
          _threat_cache_hits := _threat_cache_hits c + 1;
          _threat_cache_misses := _threat_cache_misses c |})
  | None =>
      let c1 := {| _threat_cache := _threat_cache c;
                   _threat_cache_hits := _threat_cache_hits c;
                   _threat_cache_misses := _threat_cache_misses c + 1 |} in
      let temp_game :=
        _create_temp_game_state npc game (board_state game)
                                (Some (opponent for_player_id)) in
      let immediate_threats :=
        Z.of_nat (length (filter (λ mv, is_capture mv = true
                                        ∧ capture_pos mv = Some pos)
                                 (get_all_valid_moves temp_game))) in
      if 0 <? immediate_threats then (immediate_threats, c1)
      else
        let potential_threats :=
          Z.of_nat (length (filter (λ mv, is_capture mv = false
                                          ∧ Z.abs ((to_pos mv).1 - pos.1) ≤ 2
                                          ∧ Z.abs ((to_pos mv).2 - pos.2) ≤ 2)
                                   (get_all_valid_moves temp_game))) in
        let result :=
          if 0 <? immediate_threats then immediate_threats
          else potential_threats in
        (result,
         {| _threat_cache := <[cache_key := result]> (_threat_cache c1);
            _threat_cache_hits := _threat_cache_hits c1;
            _threat_cache_misses := _threat_cache_misses c1 |})
  end.

Definition _evaluate_piece_protection (npc : SmartNPCPlayer) (c : ThreatCache)
    (game : DabloGame) (move : Move) (board_after_move : gmap Pos PieceType)
  : Q * ThreatCache :=
  match board_state game !! from_pos move with
  | None => (0%Q, c)
  | Some moving_piece =>
      if bool_decide (moving_piece = EMPTY) then (0%Q, c)
      else
        let piece_value := get_piece_value moving_piece in
        if Qltb piece_value min_piece_value_for_protection then (0%Q, c)
        else
          let before :=
            _get_threat_level npc c game (from_pos move) (player_id npc) in
          if bool_decide (before.1 = 0) then (0%Q, before.2)
          else
            let game_after_move :=
              _create_temp_game_state npc game board_after_move None in
            let after :=
              _get_threat_level npc before.2 game_after_move (to_pos move)
                                (player_id npc) in
            ((inject_Z (before.1 - after.1) * piece_value)%Q, after.2)
  end.

(** *** Notions for the statements about the board *)

(** A primary position of a [rows] x [cols] board: integral coordinates
    within the bounds. *)
Definition primary_node (rows cols : Z) (pos : Pos) : Prop :=
  Z.even pos.1 = true ∧ Z.even pos.2 = true
  ∧ 0 ≤ pos.1 ≤ 2 * (rows - 1) ∧ 0 ≤ pos.2 ≤ 2 * (cols - 1).

(** A secondary position: the centre of one of the unit cells. *)
Definition secondary_node (rows cols : Z) (pos : Pos) : Prop :=
  Z.odd pos.1 = true ∧ Z.odd pos.2 = true
  ∧ 1 ≤ pos.1 ≤ 2 * (rows - 1) - 1 ∧ 1 ≤ pos.2 ≤ 2 * (cols - 1) - 1.

(** *** Notions for the statements about moves *)

(** [piece] is a piece of player [p]. *)
Definition piece_of (p : Player) (piece : PieceType) : Prop :=
  piece ≠ EMPTY ∧ (0 <? value piece) = (0 <? player_value p).

(** The move passes the validator of its kind on the board of [g]. *)
Definition passes_validation (g : DabloGame) (piece : PieceType) (m : Move)
  : Prop :=
  match capture_pos m with
  | None =>
      GameRules.is_valid_regular_move
        (from_pos m) (to_pos m) piece (board_state g) (nodes g) = true
  | Some captured =>
      ∃ target,
        board_state g !! captured = Some target
        ∧ GameRules.is_valid_capture_move
            (from_pos m) captured (to_pos m) piece target
            (board_state g) (nodes g) = true
  end.

(** The facts about the turn that every game built from the constructor
    keeps. *)
Definition turn_state_coherent (g : DabloGame) : Prop :=
  nodes g = _create_board_graph (config g)
  ∧ (capture_sequence g = true ↔ is_Some (capturing_piece g))
  ∧ 0 ≤ move_count g
  ∧ (game_over g = false → winner g = None ∧ win_reason g = None)
  ∧ (game_over g = true → is_Some (winner g) ∧ is_Some (win_reason g)).

(** The outcome that [check_win_condition] computes for the position of
    [g]. *)
Definition verdict (g : DabloGame) : option Player * option WinReason :=
  GameRules.check_win_condition
    (Z.of_nat (size (p1_pieces g))) (Z.of_nat (size (p2_pieces g)))
    (bool_decide (king_on_board g P1)) (bool_decide (king_on_board g P2))
    (move_count g) (move_limit (config g))
    (bool_decide (get_all_valid_moves g ≠ [])) (current_player g).

(** The board after a piece went from [from_pos] to [to_pos] and the
    captured piece, if any, was taken off. *)
Definition board_after (board : gmap Pos PieceType) (piece : PieceType)
    (m : Move) : gmap Pos PieceType :=
  let relocated := <[to_pos m := piece]> (<[from_pos m := EMPTY]> board) in
  match capture_pos m with
  | Some captured => <[captured := EMPTY]> relocated
  | None => relocated
  end.

(** Each side has a king and a warrior; the warrior of Player 1 can take
    the warrior of Player 2 and no further capture follows. *)
Definition lone_king_game : DabloGame :=
  __init__ (layout_config 6 5 500
              [ (P1_KING, [(10, 8)]); (P1_WARRIOR, [(8, 4)]) ]
              [ (P2_KING, [(0, 0)]); (P2_WARRIOR, [(6, 4)]) ])
           "default".

(** Every threat level stored in the memo table is zero. *)
Definition cache_all_zero (c : ThreatCache) : Prop :=
  ∀ key level, _threat_cache c !! key = Some level → level = 0.

(** The number of positions of the board that hold the piece [p], and
    the number that hold a piece of the given sign. *)
Definition holding (p : PieceType) (board : gmap Pos PieceType) : nat :=
  size (filter (λ item : Pos * PieceType, item.2 = p) board).

Definition holding_p1 (board : gmap Pos PieceType) : nat :=
  size (filter (λ item : Pos * PieceType, 0 < value item.2) board).

Definition holding_p2 (board : gmap Pos PieceType) : nat :=
  size (filter (λ item : Pos * PieceType, value item.2 < 0) board).

(** * Properties *)

(** ** The board graph *)

Section Topology.

Variable cfg : DabloConfig.

Let board_nodes := all_nodes (board_rows cfg) (board_cols cfg).

Lemma board_graph_lookup (pos : Pos) :
  _create_board_graph cfg !! pos =
    if decide (pos ∈ board_nodes)
    then Some (filter (λ n, n ∈ board_nodes) (potential_neighbors pos))
    else None.
Proof.
  unfold _create_board_graph. rewrite map_lookup_imap.
  rewrite lookup_gset_to_gmap. fold board_nodes.
  destruct (decide (pos ∈ board_nodes)) as [Hin | Hout].
  - rewrite option_guard_True by done. reflexivity.
  - rewrite option_guard_False by done. reflexivity.
Qed.

Lemma elem_of_neighbours (a b : Pos) :
  b ∈ MovementValidator.neighbours (_create_board_graph cfg) a
  ↔ a ∈ board_nodes ∧ b ∈ board_nodes ∧ b ∈ potential_neighbors a.
Proof.
  unfold MovementValidator.neighbours. rewrite board_graph_lookup.
  destruct (decide (a ∈ board_nodes)) as [Hin | Hout]; simpl.
  - rewrite list_elem_of_filter. tauto.
  - rewrite elem_of_nil. tauto.
Qed.

End Topology.

Ltac pick_member :=
  rewrite ?elem_of_cons;
  solve [ repeat first [ left; f_equal; lia | right ] ].

Lemma potential_neighbors_sym (a b : Pos) :
  b ∈ potential_neighbors a → a ∈ potential_neighbors b.
Proof.
  destruct a as [r c], b as [r' c']. unfold potential_neighbors.
  destruct (Z.even r) eqn:Er, (Z.even c) eqn:Ec; simpl;
    rewrite ?elem_of_cons, elem_of_nil; intros H;
    repeat (destruct H as [H | H]); try done;
    injection H as -> ->;
    rewrite ?Z.even_sub, ?Z.even_add, ?Er, ?Ec; simpl;
    pick_member.
Qed.

(** The offsets of a graph neighbour: one orthogonal primary step or one
    diagonal half step. *)
Lemma potential_neighbors_offset (a b : Pos) :
  b ∈ potential_neighbors a →
  (Z.abs (b.1 - a.1), Z.abs (b.2 - a.2)) ∈ [ (2, 0); (0, 2); (1, 1) ].
Proof.
  destruct a as [r c], b as [r' c']. unfold potential_neighbors.
  destruct (Z.even r && Z.even c); simpl;
    rewrite ?elem_of_cons, elem_of_nil; intros H;
    repeat (destruct H as [H | H]); try done;
    injection H as -> ->; pick_member.
Qed.

(** C6.  The graph built by [_create_board_graph] is symmetric: for every
    board size (in particular every size within the configured bounds)
    and all positions [a] and [b], [b] is listed among the neighbours of
    [a] if and only if [a] is listed among the neighbours of [b]. *)
Theorem board_graph_symmetric (cfg : DabloConfig) (a b : Pos) :
  b ∈ MovementValidator.neighbours (_create_board_graph cfg) a
  ↔ a ∈ MovementValidator.neighbours (_create_board_graph cfg) b.
Proof.
  rewrite !elem_of_neighbours.
  split; intros (Ha & Hb & Hp); repeat split; trivial;
    by apply potential_neighbors_sym.
Qed.

(** C7.  [calculate_capture_landing] is a function of the pair
    (from, captured) alone.  For a captured position that is a graph
    neighbour of the from-position, the landing lies on the line through
    the two (the cross product of the two displacements vanishes), on the
    side of the captured position, and strictly farther from the
    from-position than the captured position. *)
Theorem capture_landing_beyond_captured (cfg : DabloConfig) (from captured : Pos) :
  captured ∈ MovementValidator.neighbours (_create_board_graph cfg) from →
  let landing := MovementValidator.calculate_capture_landing from captured in
  (captured.1 - from.1) * (landing.2 - from.2)
    = (captured.2 - from.2) * (landing.1 - from.1)
  ∧ 0 < (captured.1 - from.1) * (landing.1 - from.1)
        + (captured.2 - from.2) * (landing.2 - from.2)
  ∧ sq_dist from captured < sq_dist from landing.
Proof.
  intros Hadj. apply elem_of_neighbours in Hadj as (_ & _ & Hp).
  apply potential_neighbors_offset in Hp.
  destruct from as [r c], captured as [r' c']; simpl in *.
  unfold MovementValidator.calculate_capture_landing, sq_dist; simpl.
  rewrite !elem_of_cons, elem_of_nil in Hp.
  rewrite bool_decide_eq_false_2.
  2: { intros [E | E]; destruct Hp as [Hp | [Hp | [Hp | []]]]; congruence. }
  simpl.
  destruct Hp as [Hp | [Hp | [Hp | []]]]; injection Hp as H1 H2; nia.
Qed.

Lemma capture_landing_beyond_captured_witness :
  (4, 4) ∈ MovementValidator.neighbours (_create_board_graph create_default) (6, 4)
  ∧ MovementValidator.calculate_capture_landing (6, 4) (4, 4) = (2, 4)
  ∧ sq_dist (6, 4) (4, 4) < sq_dist (6, 4) (2, 4).
Proof.
  assert (H : (4, 4) ∈ MovementValidator.neighbours
                (_create_board_graph create_default) (6, 4))
    by (vm_compute; pick_member).
  split; [exact H |].
  split; [reflexivity |].
  exact (proj2 (proj2 (capture_landing_beyond_captured create_default
                         (6, 4) (4, 4) H))).
Defined.

(** ** Piece bookkeeping *)

Lemma ex_Some_eq {A : Type} (x : A) (P : A → Prop) :
  (∃ y, Some x = Some y ∧ P y) ↔ P x.
Proof.
  split; [intros (y & Hy & HP); by simplify_eq | intros HP; eauto].
Qed.

Ltac sync_cases pos' pos :=
  rewrite ?elem_of_union, ?elem_of_difference, ?elem_of_singleton;
  destruct (decide (pos' = pos)) as [-> | ?];
  [ rewrite lookup_insert_eq, !ex_Some_eq; simpl in *; intuition lia
  | rewrite lookup_insert_ne by done; intuition congruence ].

Lemma add_piece_sync (g : DabloGame) (pos : Pos) (piece_type : PieceType) :
  pieces_in_sync g → pieces_in_sync (add_piece g pos piece_type).2.
Proof.
  intros Hs. unfold add_piece.
  destruct (board_state g !! pos) as [occupant |] eqn:Hocc; [| done].
  case_bool_decide as Hne; [done |].
  subst occupant.
  assert (Hp1 : pos ∉ p1_pieces g).
  { intros Hin. apply Hs in Hin as (p & Hp & Hv). simplify_eq. simpl in Hv. lia. }
  assert (Hp2 : pos ∉ p2_pieces g).
  { intros Hin. apply Hs in Hin as (p & Hp & Hv). simplify_eq. simpl in Hv. lia. }
  destruct (0 <? value piece_type) eqn:Hpos;
    [| destruct (value piece_type <? 0) eqn:Hneg];
    intros pos'; specialize (Hs pos'); simpl;
    sync_cases pos' pos.
Qed.

Lemma remove_piece_sync (g : DabloGame) (pos : Pos) :
  pieces_in_sync g → pieces_in_sync (remove_piece g pos).2.
Proof.
  intros Hs. unfold remove_piece.
  pose proof (Hs pos) as [Hq1 Hq2].
  destruct (board_state g !! pos) as [occupant |] eqn:Hocc; simpl.
  - destruct (0 <? value occupant) eqn:Hpos;
      [| destruct (value occupant <? 0) eqn:Hneg];
      intros pos'; specialize (Hs pos'); simpl;
      rewrite ?ex_Some_eq in Hq1, Hq2;
      sync_cases pos' pos.
  - assert (Hn1 : pos ∉ p1_pieces g) by (intros Hin; apply Hq1 in Hin as (? & ? & _); done).
    assert (Hn2 : pos ∉ p2_pieces g) by (intros Hin; apply Hq2 in Hin as (? & ? & _); done).
    intros pos'; specialize (Hs pos'); simpl.
    sync_cases pos' pos.
Qed.

Lemma clear_board_sync (g : DabloGame) : pieces_in_sync (clear_board g).
Proof.
  intros pos. unfold clear_board; simpl. rewrite lookup_fmap.
  destruct (board_state g !! pos); simpl; split; split;
    try (intros H; by apply not_elem_of_empty in H);
    intros (q & Hq & Hv); simplify_eq; simpl in Hv; lia.
Qed.

Lemma setup_custom_position_sync (g : DabloGame) (pieces : list (Pos * PieceType)) :
  pieces_in_sync (setup_custom_position g pieces).
Proof.
  unfold setup_custom_position.
  generalize (clear_board_sync g). generalize (clear_board g).
  induction pieces as [| item pieces IH]; intros acc Hacc; simpl; [done |].
  apply IH. case_bool_decide; [by apply add_piece_sync | done].
Qed.

Lemma add_setup_sync (g : DabloGame) (setup : list (PieceType * list Pos)) :
  pieces_in_sync g → pieces_in_sync (add_setup g setup).
Proof.
  unfold add_setup. revert g.
  induction setup as [| item setup IH]; intros g Hg; simpl; [done |].
  apply IH. destruct item as [piece_type positions]; simpl.
  clear IH. revert g Hg.
  induction positions as [| pos positions IH]; intros g Hg; simpl; [done |].
  apply IH. by apply add_piece_sync.
Qed.

Lemma init_sync (cfg : DabloConfig) (initial_state : string) :
  pieces_in_sync (__init__ cfg initial_state).
Proof.
  unfold __init__. case_bool_decide.
  - intros pos; simpl. rewrite lookup_empty. split; split;
      try (intros H'; by apply not_elem_of_empty in H');
      intros (q & Hq & _); done.
  - unfold _setup_initial_pieces. do 2 apply add_setup_sync.
    intros pos; simpl. rewrite lookup_gset_to_gmap.
    split; split;
      try (intros H'; by apply not_elem_of_empty in H');
      intros (q & Hq & Hv);
      apply bind_Some in Hq as (? & _ & Hq); simplify_eq; simpl in Hv; lia.
Qed.

(** ** The shape of [make_move] *)

Lemma make_move_active (g : DabloGame) (move : Move) :
  game_over g = false →
  make_move g move =
    match capture_pos move, additional_captures (moved g move) move with
    | Some _, _ :: _ =>
        Return (set_capture_sequence (moved g move) true (Some (to_pos move)),
                (true, move_info g move true))
    | _, _ => end_turn (moved g move) (move_info g move false)
    end.
Proof.
  intros Hactive. unfold make_move, moved, move_info, is_capture.
  rewrite Hactive. destruct (relocate g move) as [moving_piece g1]; simpl.
  destruct (capture_pos move) as [cpos |]; [| done].
  by destruct (additional_captures _ move).
Qed.

Lemma make_move_over (g : DabloGame) (move : Move) :
  game_over g = true →
  make_move g move = Return (g, (false, InfoError "Game is over")).
Proof. intros Hover. unfold make_move. by rewrite Hover. Qed.

Lemma add_piece_same_turn_state (g : DabloGame) (pos : Pos) (pt : PieceType) :
  same_turn_state g (add_piece g pos pt).2
  ∧ move_count (add_piece g pos pt).2 = move_count g.
Proof. unfold add_piece, same_turn_state. repeat case_match; simpl; tauto. Qed.

Lemma remove_piece_same_turn_state (g : DabloGame) (pos : Pos) :
  same_turn_state g (remove_piece g pos).2
  ∧ move_count (remove_piece g pos).2 = move_count g.
Proof. unfold remove_piece, same_turn_state. repeat case_match; simpl; tauto. Qed.

Lemma moved_same_turn_state (g : DabloGame) (move : Move) :
  same_turn_state g (moved g move).
Proof.
  unfold moved, relocate; simpl.
  pose proof (remove_piece_same_turn_state g (from_pos move)) as [H1 _].
  pose proof (add_piece_same_turn_state (remove_piece g (from_pos move)).2
                (to_pos move) (remove_piece g (from_pos move)).1) as [H2 _].
  destruct (capture_pos move) as [cpos |]; simpl.
  - match goal with
    | |- same_turn_state _ (set_last_captured_piece (remove_piece ?x cpos).2 _) =>
        pose proof (remove_piece_same_turn_state x cpos) as [H3 _]
    end.
    unfold same_turn_state in *; simpl in *. intuition congruence.
  - unfold same_turn_state in *; simpl in *. intuition congruence.
Qed.

Lemma moved_move_count (g : DabloGame) (move : Move) :
  move_count (moved g move) = move_count g + 1.
Proof.
  unfold moved, relocate; simpl.
  pose proof (remove_piece_same_turn_state g (from_pos move)) as [_ H1].
  pose proof (add_piece_same_turn_state (remove_piece g (from_pos move)).2
                (to_pos move) (remove_piece g (from_pos move)).1) as [_ H2].
  destruct (capture_pos move) as [cpos |]; simpl.
  - match goal with
    | |- move_count (remove_piece ?x cpos).2 = _ =>
        pose proof (remove_piece_same_turn_state x cpos) as [_ H3]
    end.
    simpl in *. lia.
  - lia.
Qed.

Lemma moved_sync (g : DabloGame) (move : Move) :
  pieces_in_sync g → pieces_in_sync (moved g move).
Proof.
  intros Hs. unfold moved, relocate; simpl.
  assert (H1 : pieces_in_sync
                 (add_piece (remove_piece g (from_pos move)).2 (to_pos move)
                            (remove_piece g (from_pos move)).1).2)
    by (by apply add_piece_sync, remove_piece_sync).
  destruct (capture_pos move) as [cpos |]; simpl; [| exact H1].
  match goal with
  | |- pieces_in_sync (set_last_captured_piece (remove_piece ?x cpos).2 _) =>
      assert (H2 : pieces_in_sync x) by exact H1;
      apply (remove_piece_sync x cpos) in H2
  end.
  exact H2.
Qed.

(** ** End of turn *)

Lemma find_king_total (board : gmap Pos PieceType) (kt : PieceType) (l : list Pos) :
  (∀ pos, pos ∈ l → is_Some (board !! pos)) →
  ∃ r, find_king board kt l = Return r
       ∧ match r with
         | Some pos => pos ∈ l ∧ board !! pos = Some kt
         | None => ∀ pos, pos ∈ l → board !! pos ≠ Some kt
         end.
Proof.
  induction l as [| pos l IH]; intros Hkeys; simpl.
  - exists None. split; [done |].
    intros pos Hin. by apply elem_of_nil in Hin.
  - destruct (Hkeys pos) as [piece Hpiece]; [by left |]. rewrite Hpiece.
    case_bool_decide as Hking.
    + exists (Some pos). split; [done |]. split; [by left | by subst].
    + destruct IH as (r & Hr & Hspec).
      { intros pos' Hin. apply Hkeys. by right. }
      exists r. split; [done |]. destruct r as [found |].
      * destruct Hspec. split; [by right | done].
      * intros pos' Hin. apply elem_of_cons in Hin as [-> | Hin]; [| by apply Hspec].
        rewrite Hpiece. congruence.
Qed.

Lemma get_king_position_sync (g : DabloGame) (p : Player) :
  pieces_in_sync g →
  ∃ r, get_king_position g p = Return r ∧ (r ≠ None ↔ king_on_board g p).
Proof.
  intros Hs. unfold get_king_position.
  destruct (find_king_total (board_state g) (king_of p)
              (elements (player_pieces g p))) as (r & Hr & Hspec).
  { intros pos Hin. apply elem_of_elements in Hin.
    unfold player_pieces in Hin. destruct (Hs pos) as [H1 H2].
    case_bool_decide; [apply H1 in Hin | apply H2 in Hin];
      destruct Hin as (piece & -> & _); eauto. }
  exists r. split; [exact Hr |]. unfold king_on_board.
  destruct r as [found |].
  - destruct Hspec as [_ Hfound]. split; [eauto | done].
  - split; [done |]. intros (pos & Hpos). exfalso.
    apply (Hspec pos); [| done].
    apply elem_of_elements. unfold player_pieces, king_of in *.
    destruct (Hs pos) as [H1 H2].
    case_bool_decide; [apply H1 | apply H2]; eexists; split; eauto; simpl; lia.
Qed.

(** [_check_game_state] under the bookkeeping invariant: no exception,
    and the outcome is the one [check_win_condition] computes from the
    board. *)
Lemma check_game_state_sync (g : DabloGame) :
  pieces_in_sync g →
  ∃ k1 k2 : bool,
    (k1 = true ↔ king_on_board g P1) ∧ (k2 = true ↔ king_on_board g P2)
    ∧ _check_game_state g =
        Return
          (let outcome :=
             GameRules.check_win_condition
               (Z.of_nat (size (p1_pieces g))) (Z.of_nat (size (p2_pieces g)))
               k1 k2 (move_count g) (move_limit (config g))
               (match get_all_valid_moves g with [] => false | _ => true end)
               (current_player g) in
           match outcome.1 with
           | Some w => end_game g w outcome.2
           | None => g
           end).
Proof.
  intros Hs.
  destruct (get_king_position_sync g P1 Hs) as (r1 & Hr1 & Hk1).
  destruct (get_king_position_sync g P2 Hs) as (r2 & Hr2 & Hk2).
  exists (bool_decide (r1 ≠ None)), (bool_decide (r2 ≠ None)).
  rewrite !bool_decide_eq_true.
  split; [done | split; [done |]].
  unfold _check_game_state. rewrite Hr1; simpl. rewrite Hr2; simpl.
  destruct (GameRules.check_win_condition _ _ _ _ _ _ _ _) as [w reason]; simpl.
  by destruct w.
Qed.

Lemma end_turn_sync (g : DabloGame) (info : MoveInfo) :
  pieces_in_sync g →
  ∃ g', end_turn g info = Return (g', (true, info))
        ∧ board_state g' = board_state g
        ∧ p1_pieces g' = p1_pieces g ∧ p2_pieces g' = p2_pieces g
        ∧ move_count g' = move_count g
        ∧ current_player g' = opponent (current_player g).
Proof.
  intros Hs. unfold end_turn.
  set (g2 := set_current_player _ _).
  assert (Hs2 : pieces_in_sync g2) by exact Hs.
  destruct (check_game_state_sync g2 Hs2) as (k1 & k2 & _ & _ & Hcheck).
  rewrite Hcheck; simpl. eexists. split; [reflexivity |].
  destruct (GameRules.check_win_condition _ _ _ _ _ _ _ _).1; simpl;
    repeat split; reflexivity.
Qed.

(** Under the invariant [make_move] never raises; it keeps the invariant
    and never lowers the counter. *)
Lemma make_move_sync (g : DabloGame) (move : Move) :
  pieces_in_sync g →
  ∃ g' r, make_move g move = Return (g', r)
          ∧ pieces_in_sync g'
          ∧ move_count g ≤ move_count g'
          ∧ (game_over g = false →
             r.1 = true ∧ move_count g' = move_count g + 1).
Proof.
  intros Hs. destruct (game_over g) eqn:Hover.
  - rewrite make_move_over by done. exists g, (false, InfoError "Game is over").
    split; [reflexivity |]. split; [exact Hs |]. split; [lia | congruence].
  - rewrite make_move_active by done.
    pose proof (moved_sync g move Hs) as Hm.
    pose proof (moved_move_count g move) as Hc.
    destruct (end_turn_sync (moved g move) (move_info g move false) Hm)
      as (g' & Hend & Hb & Hp1 & Hp2 & Hcount & _).
    assert (Hs' : pieces_in_sync g').
    { intros pos. rewrite Hb, Hp1, Hp2. apply Hm. }
    destruct (capture_pos move) as [cpos |];
      [destruct (additional_captures (moved g move) move) |].
    + rewrite Hend. exists g', (true, move_info g move false).
      split; [reflexivity |]. split; [exact Hs' |]. simpl. split; [lia |].
      intros _. split; [reflexivity | lia].
    + eexists _, _. split; [reflexivity |]. split; [exact Hm |]. simpl.
      split; [lia |]. intros _. split; [reflexivity | lia].
    + rewrite Hend. exists g', (true, move_info g move false).
      split; [reflexivity |]. split; [exact Hs' |]. simpl. split; [lia |].
      intros _. split; [reflexivity | lia].
Qed.

(** ** Settling closed statements by evaluation *)

Ltac by_evaluation :=
  lazymatch goal with
  | |- ¬ ?P => apply (proj1 (bool_decide_eq_false P)); vm_compute; reflexivity
  | |- ?P => apply (bool_decide_unpack P); vm_compute; exact I
  end.

Lemma accepted_outcome (r : exn (DabloGame * (bool * MoveInfo)))
    (P : DabloGame → MoveInfo → Prop) `{∀ g i, Decision (P g i)} :
  match accepted r with
  | Some (g', info) => bool_decide (P g' info)
  | None => false
  end = true →
  ∃ g' info, r = Return (g', (true, info)) ∧ P g' info.
Proof.
  destruct r as [[g' [[] info]] |]; simpl; try done.
  intros HP%bool_decide_eq_true. eauto.
Qed.

Lemma played_outcome (o : option DabloGame)
    (P : DabloGame → Prop) `{∀ g, Decision (P g)} :
  match o with
  | Some g' => bool_decide (P g')
  | None => false
  end = true →
  ∃ g', o = Some g' ∧ P g'.
Proof.
  destruct o as [g' |]; simpl; try done.
  intros HP%bool_decide_eq_true. eauto.
Qed.

Ltac outcome_by_evaluation :=
  lazymatch goal with
  | |- ∃ g' info, ?r = Return (g', (true, info)) ∧ @?P g' info =>
      unshelve refine (@accepted_outcome r P _ _)
  | |- ∃ g', ?o = Some g' ∧ @?P g' =>
      unshelve refine (@played_outcome o P _ _)
  end;
  first [ solve [ intros; cbv beta; apply _ ] | vm_compute; reflexivity ].

(** ** The occupied sets mirror the board *)

(** C9.  In every game obtained from the constructor by [add_piece],
    [remove_piece], [clear_board], [setup_custom_position] and
    [make_move], a position is in a player's set of occupied positions
    if and only if the board mapping holds a piece of that player there.
    In such a game [make_move] completes without an exception. *)
Theorem occupied_sets_mirror_board (g : DabloGame) :
  built g →
  pieces_in_sync g
  ∧ ∀ move, ∃ g' r, make_move g move = Return (g', r).
Proof.
  intros Hb.
  assert (Hs : pieces_in_sync g).
  { induction Hb as [cfg s | g pos pt _ IH | g pos _ IH | g _ _
                     | g pieces _ _ | g move g' r _ IH Hmove].
    - apply init_sync.
    - by apply add_piece_sync.
    - by apply remove_piece_sync.
    - apply clear_board_sync.
    - apply setup_custom_position_sync.
    - destruct (make_move_sync g move IH) as (g'' & r' & Hm & Hs'' & _).
      rewrite Hmove in Hm. by simplify_eq. }
  split; [exact Hs |].
  intros move. destruct (make_move_sync g move Hs) as (g' & r & Hm & _).
  eauto.
Qed.

Lemma occupied_sets_mirror_board_witness :
  built (add_piece (remove_piece standard_game (8, 0)).2 (6, 0) P1_PRINCE).2
  ∧ pieces_in_sync
      (add_piece (remove_piece standard_game (8, 0)).2 (6, 0) P1_PRINCE).2.
Proof.
  assert (Hb : built (add_piece (remove_piece standard_game (8, 0)).2
                                (6, 0) P1_PRINCE).2)
    by (apply built_add_piece, built_remove_piece, built_init).
  split; [exact Hb |].
  exact (proj1 (occupied_sets_mirror_board _ Hb)).
Defined.

(** C10, as the code has it.  [add_piece] tests the keys of the board
    mapping, not the nodes of the graph.  It returns [False] and leaves
    the game unchanged when the position is no key of the board mapping
    or holds a piece other than [EMPTY]; otherwise it returns [True],
    stores the piece at the position and adds the position to the set of
    the piece's owner. *)
Theorem add_piece_checks_board_keys (g : DabloGame) (pos : Pos) (pt : PieceType) :
  (board_state g !! pos = None
   ∨ (∃ occupant, board_state g !! pos = Some occupant ∧ occupant ≠ EMPTY)
   → add_piece g pos pt = (false, g))
  ∧ (board_state g !! pos = Some EMPTY
     → (add_piece g pos pt).1 = true
       ∧ board_state (add_piece g pos pt).2 = <[pos := pt]> (board_state g)
       ∧ p1_pieces (add_piece g pos pt).2
         = (if 0 <? value pt then {[pos]} ∪ p1_pieces g else p1_pieces g)
       ∧ p2_pieces (add_piece g pos pt).2
         = (if value pt <? 0 then {[pos]} ∪ p2_pieces g else p2_pieces g)).
Proof.
  unfold add_piece. split.
  - intros [Hnone | (occupant & Hocc & Hne)].
    + by rewrite Hnone.
    + rewrite Hocc. by rewrite bool_decide_eq_true_2.
  - intros Hempty. rewrite Hempty. simpl.
    destruct (0 <? value pt) eqn:Hpos; [| destruct (value pt <? 0) eqn:Hneg];
      simpl; repeat split; try reflexivity.
    assert ((value pt <? 0) = false) as -> by lia. reflexivity.
Qed.

Lemma add_piece_checks_board_keys_witness :
  board_state standard_game !! (6, 0) = Some EMPTY
  ∧ (add_piece standard_game (6, 0) P1_PRINCE).1 = true
  ∧ board_state empty_game !! (6, 0) = None
  ∧ add_piece empty_game (6, 0) P1_PRINCE = (false, empty_game).
Proof.
  assert (H1 : board_state standard_game !! (6, 0) = Some EMPTY)
    by (vm_compute; reflexivity).
  assert (H2 : board_state empty_game !! (6, 0) = None)
    by (vm_compute; reflexivity).
  split; [exact H1 |].
  split; [exact (proj1 (proj2 (add_piece_checks_board_keys
                                 standard_game (6, 0) P1_PRINCE) H1)) |].
  split; [exact H2 |].
  exact (proj1 (add_piece_checks_board_keys empty_game (6, 0) P1_PRINCE)
               (or_introl H2)).
Defined.

(** C10 as stated fails in both directions.  On a game constructed with
    [initial_state="empty"] the board mapping has no key, so the graph
    node (0.0, 0.0), which holds no piece, is refused.  After
    [remove_piece] was called with the position (10.0, 10.0), which is off
    the 6 x 5 board, that position is a key of the board mapping and a
    piece is accepted there. *)
Lemma add_piece_disagrees_with_graph :
  (is_Some (nodes empty_game !! (0, 0))
   ∧ board_state empty_game !! (0, 0) = None
   ∧ (add_piece empty_game (0, 0) P1_KING).1 = false)
  ∧ (let g := (remove_piece standard_game (20, 20)).2 in
     nodes g !! (20, 20) = None
     ∧ (add_piece g (20, 20) P1_WARRIOR).1 = true
     ∧ board_state (add_piece g (20, 20) P1_WARRIOR).2 !! (20, 20)
       = Some P1_WARRIOR).
Proof.
  split; [split; [| split] | split; [| split]];
    try (vm_compute; reflexivity).
  vm_compute. eauto.
Qed.

(** ** Applying moves *)

(** C1, as the code has it.  [make_move] has no legality check.  On a
    game that is over it returns failure and leaves the game as it is.
    On an active game it executes whatever move it is given, in the legal
    set or not: it returns success and the move counter grows by one. *)
Theorem make_move_executes_any_move (g : DabloGame) (move : Move) :
  pieces_in_sync g →
  (game_over g = true →
   make_move g move = Return (g, (false, InfoError "Game is over")))
  ∧ (game_over g = false →
     (∃ g' info, make_move g move = Return (g', (true, info))
                 ∧ move_count g' = move_count g + 1)).
Proof.
  intros Hs. split; [apply make_move_over |].
  intros Hactive.
  destruct (make_move_sync g move Hs) as (g' & [ok info] & Hm & _ & _ & Hok).
  destruct (Hok Hactive) as [Hsucc Hcount]. simpl in Hsucc. subst ok.
  eauto.
Qed.

Lemma make_move_executes_any_move_witness :
  pieces_in_sync standard_game
  ∧ game_over standard_game = false
  ∧ (∃ g' info, make_move standard_game far_jump = Return (g', (true, info))
                ∧ move_count g' = move_count standard_game + 1).
Proof.
  assert (Hs : pieces_in_sync standard_game) by apply init_sync.
  assert (Ha : game_over standard_game = false) by reflexivity.
  split; [exact Hs |]. split; [exact Ha |].
  exact (proj2 (make_move_executes_any_move standard_game far_jump Hs) Ha).
Defined.

(** C1 as stated fails: in the standard opening position the move of the
    warrior on (4.0, 0.0) to the far square (2.0, 2.0) is not among the
    legal moves, yet [make_move] reports success, relocates the warrior,
    passes the turn and counts the move. *)
Lemma illegal_move_is_executed :
  game_over standard_game = false
  ∧ (far_jump ∉ get_all_valid_moves standard_game)
  ∧ board_state standard_game !! (8, 0) = Some P1_WARRIOR
  ∧ board_state standard_game !! (4, 4) = Some EMPTY
  ∧ (∃ g' info,
      make_move standard_game far_jump = Return (g', (true, info))
      ∧ board_state g' !! (8, 0) = Some EMPTY
      ∧ board_state g' !! (4, 4) = Some P1_WARRIOR
      ∧ ((8, 0) ∉ p1_pieces g') ∧ (4, 4) ∈ p1_pieces g'
      ∧ current_player standard_game = P1 ∧ current_player g' = P2
      ∧ move_count standard_game = 0 ∧ move_count g' = 1).
Proof.
  split; [reflexivity |].
  split; [by_evaluation |].
  split; [vm_compute; reflexivity |].
  split; [vm_compute; reflexivity |].
  outcome_by_evaluation.
Qed.

Lemma get_valid_moves_from (g : DabloGame) (pos : Pos) (m : Move) :
  m ∈ get_valid_moves g pos → from_pos m = pos.
Proof.
  unfold get_valid_moves.
  destruct (board_state g !! pos) as [piece |]; [| by intros ?%elem_of_nil].
  destruct (_ || _); [by intros ?%elem_of_nil |].
  intros (neighbor & Hm & _)%list_elem_of_bind.
  unfold moves_via in Hm.
  repeat case_match; try (by apply elem_of_nil in Hm);
    apply list_elem_of_singleton in Hm; by subst.
Qed.

(** [make_move] reports an available chain capture only after a capture
    that leaves a further capture open to the moved piece. *)
Lemma chain_reported_only_with_further_capture
    (g g' : DabloGame) (move : Move) (info : MoveInfo) :
  game_over g = false →
  make_move g move = Return (g', (true, info)) →
  chain_available info = true →
  is_capture move = true
  ∧ ∃ m, m ∈ get_valid_moves (moved g move) (to_pos move)
         ∧ is_capture m = true ∧ to_pos m ≠ from_pos move.
Proof.
  intros Hactive Hmove Hchain.
  rewrite make_move_active in Hmove by done.
  assert (Hnochain : ∀ x, end_turn (moved g move) (move_info g move false)
                          ≠ Return (x, (true, info))).
  { intros x Hend. unfold end_turn in Hend.
    destruct (_check_game_state _); simpl in Hend; [| done].
    by simplify_eq. }
  unfold is_capture.
  destruct (capture_pos move) as [cpos |]; [| by destruct (Hnochain g')].
  destruct (additional_captures (moved g move) move) as [| m ms] eqn:Hadd;
    [by destruct (Hnochain g') |].
  split; [done |]. exists m.
  assert (Hin : m ∈ additional_captures (moved g move) move)
    by (rewrite Hadd; by left).
  unfold additional_captures in Hin.
  apply list_elem_of_filter in Hin as (Hback & Hin).
  apply list_elem_of_filter in Hin as (Hcap & Hin).
  done.
Qed.

(** C4, as the code has it.  Take an active game and a capturing move,
    and let [moved g move] be the position that executing the move
    produces: the piece relocated, the counter incremented, the captured
    piece removed.  If in that position a further capture [next] is open
    from the landing square, one that does not land on the original
    from-position, then [make_move] succeeds and reports an available
    chain capture, the same player remains to move, the game stays
    active, the chain is recorded for the landing square, the board is
    that of the position produced, [next] is offered, and
    [get_all_valid_moves] returns exactly the moves of the piece on the
    landing square, so every move it returns starts there.  (That piece's
    non-capturing moves are returned as well.) *)
Theorem chain_capture_keeps_the_turn (g : DabloGame) (move next : Move) :
  game_over g = false →
  is_capture move = true →
  next ∈ get_valid_moves (moved g move) (to_pos move) →
  is_capture next = true →
  to_pos next ≠ from_pos move →
  ∃ g' info,
    make_move g move = Return (g', (true, info))
    ∧ chain_available info = true
    ∧ current_player g' = current_player g
    ∧ game_over g' = false
    ∧ capture_sequence g' = true
    ∧ capturing_piece g' = Some (to_pos move)
    ∧ board_state g' = board_state (moved g move)
    ∧ get_all_valid_moves g' = get_valid_moves g' (to_pos move)
    ∧ next ∈ get_all_valid_moves g'
    ∧ (∀ m, m ∈ get_all_valid_moves g' → from_pos m = to_pos move).
Proof.
  intros Hactive Hcap Hnext Hnextcap Hback.
  assert (Hin : next ∈ additional_captures (moved g move) move).
  { unfold additional_captures.
    apply list_elem_of_filter. split; [exact Hback |].
    apply list_elem_of_filter. by split. }
  pose proof (make_move_active g move Hactive) as Hmove.
  pose proof (moved_same_turn_state g move) as (_ & _ & Hplayer & Hover & _).
  unfold is_capture in Hcap.
  destruct (capture_pos move) as [cpos |]; [| done].
  destruct (additional_captures (moved g move) move) as [| m ms];
    [by apply elem_of_nil in Hin |].
  exists (set_capture_sequence (moved g move) true (Some (to_pos move))),
         (move_info g move true).
  split; [exact Hmove |].
  split; [reflexivity |].
  split; [exact Hplayer |].
  split; [simpl; congruence |].
  split; [reflexivity |].
  split; [reflexivity |].
  split; [reflexivity |].
  split; [reflexivity |].
  split; [exact Hnext |].
  intros m' Hm'. by apply get_valid_moves_from in Hm'.
Qed.

Lemma chain_capture_keeps_the_turn_witness :
  game_over chain_game = false
  ∧ is_capture first_capture = true
  ∧ mk_capture (4, 4) (4, 0) (4, 2)
    ∈ get_valid_moves (moved chain_game first_capture) (to_pos first_capture)
  ∧ to_pos (mk_capture (4, 4) (4, 0) (4, 2)) ≠ from_pos first_capture
  ∧ (∃ g' info,
      make_move chain_game first_capture = Return (g', (true, info))
      ∧ chain_available info = true
      ∧ current_player g' = current_player chain_game
      ∧ game_over g' = false
      ∧ (∀ m, m ∈ get_all_valid_moves g' → from_pos m = to_pos first_capture)).
Proof.
  assert (Ha : game_over chain_game = false) by reflexivity.
  assert (Hc : is_capture first_capture = true) by reflexivity.
  assert (Hn : mk_capture (4, 4) (4, 0) (4, 2)
               ∈ get_valid_moves (moved chain_game first_capture)
                   (to_pos first_capture)) by by_evaluation.
  assert (Hnc : is_capture (mk_capture (4, 4) (4, 0) (4, 2)) = true)
    by reflexivity.
  assert (Hb : to_pos (mk_capture (4, 4) (4, 0) (4, 2))
               ≠ from_pos first_capture) by by_evaluation.
  split; [exact Ha |]. split; [exact Hc |]. split; [exact Hn |].
  split; [exact Hb |].
  destruct (chain_capture_keeps_the_turn _ _ _ Ha Hc Hn Hnc Hb)
    as (g' & info & Hm & Hchain & Hp & Hover & _ & _ & _ & _ & _ & Hall).
  exists g', info. repeat split; assumption.
Defined.

(** C4 as stated fails: after the warrior of Player 1 took the first
    warrior and a second capture is on offer, [get_all_valid_moves] also
    returns the plain forward step from the landing square (2.0, 2.0) to
    (1.0, 2.0), which captures nothing. *)
Lemma chain_offers_a_plain_move :
  game_over chain_game = false
  ∧ first_capture ∈ get_all_valid_moves chain_game
  ∧ (∃ g' info,
      make_move chain_game first_capture = Return (g', (true, info))
      ∧ chain_available info = true
      ∧ current_player g' = current_player chain_game
      ∧ mk_capture (4, 4) (4, 0) (4, 2) ∈ get_all_valid_moves g'
      ∧ mk_move (4, 4) (2, 4) ∈ get_all_valid_moves g'
      ∧ is_capture (mk_move (4, 4) (2, 4)) = false).
Proof.
  split; [reflexivity |].
  split; [by_evaluation |].
  outcome_by_evaluation.
Qed.

(** ** Terminal evaluation *)

(** C5, as the code has it.  Terminal evaluation runs when a move ends
    the turn.  After such a move, if the king of Player 1 is absent from
    the board the game is over and Player 2 has won by king capture;
    otherwise, if the king of Player 2 is absent, the game is over and
    Player 1 has won by king capture.  No count of pieces, move limit or
    lack of moves changes this.  A move that continues a capture chain
    runs no terminal evaluation. *)
Theorem missing_king_decides_at_end_of_turn
    (g g' : DabloGame) (move : Move) (info : MoveInfo) :
  pieces_in_sync g →
  game_over g = false →
  make_move g move = Return (g', (true, info)) →
  chain_available info = false →
  (¬ king_on_board g' P1 →
   game_over g' = true ∧ winner g' = Some P2
   ∧ win_reason g' = Some KING_CAPTURE)
  ∧ (king_on_board g' P1 → ¬ king_on_board g' P2 →
     game_over g' = true ∧ winner g' = Some P1
     ∧ win_reason g' = Some KING_CAPTURE).
Proof.
  intros Hs Hactive Hmove Hchain.
  rewrite make_move_active in Hmove by done.
  assert (Hend : end_turn (moved g move) (move_info g move false)
                 = Return (g', (true, info))).
  { destruct (capture_pos move); [| done].
    destruct (additional_captures _ _); [done |].
    by simplify_eq. }
  clear Hmove. unfold end_turn in Hend.
  set (g2 := set_current_player _ _) in Hend.
  assert (Hs2 : pieces_in_sync g2) by exact (moved_sync g move Hs).
  destruct (check_game_state_sync g2 Hs2) as (k1 & k2 & Hk1 & Hk2 & Hcheck).
  rewrite Hcheck in Hend. simpl in Hend. injection Hend as Hg' _.
  assert (Hboard : board_state g' = board_state g2).
  { subst g'. by destruct (GameRules.check_win_condition _ _ _ _ _ _ _ _).1. }
  assert (Hking : ∀ p, king_on_board g' p ↔ king_on_board g2 p).
  { intros p. unfold king_on_board. by rewrite Hboard. }
  rewrite !Hking, <- Hk1, <- Hk2.
  subst g'. unfold GameRules.check_win_condition.
  destruct k1, k2; simpl; split; intros; try done; try congruence.
Qed.

Lemma missing_king_decides_at_end_of_turn_witness :
  pieces_in_sync last_move_game
  ∧ game_over last_move_game = false
  ∧ (∃ g' info,
       make_move last_move_game king_takes_king = Return (g', (true, info))
       ∧ chain_available info = false
       ∧ king_on_board g' P1 ∧ ¬ king_on_board g' P2
       ∧ game_over g' = true ∧ winner g' = Some P1
       ∧ win_reason g' = Some KING_CAPTURE).
Proof.
  assert (Hs : pieces_in_sync last_move_game) by apply init_sync.
  assert (Ha : game_over last_move_game = false) by reflexivity.
  split; [exact Hs |]. split; [exact Ha |].
  pose (g' := end_game
                (set_current_player
                   (set_capture_sequence (moved last_move_game king_takes_king)
                                         false None) P2)
                P1 (Some KING_CAPTURE)).
  assert (Hm : make_move last_move_game king_takes_king
               = Return (g', (true, move_info last_move_game king_takes_king false)))
    by (vm_compute; reflexivity).
  assert (H1 : king_on_board g' P1) by by_evaluation.
  assert (H2 : ¬ king_on_board g' P2) by by_evaluation.
  exists g', (move_info last_move_game king_takes_king false).
  split; [exact Hm |]. split; [reflexivity |].
  split; [exact H1 |]. split; [exact H2 |].
  exact (proj2 (missing_king_decides_at_end_of_turn _ _ _ _ Hs Ha Hm eq_refl)
               H1 H2).
Defined.

(** C5 as stated fails on a reachable state.  From a game set up through
    the configuration, the king of Player 1 takes the king of Player 2 by
    a move that [get_all_valid_moves] offers; a further capture is
    available from the landing square, so the chain continues: the king
    of Player 2 is absent from the board and the game is not over. *)
Lemma king_captured_mid_chain :
  game_over regicide_game = false
  ∧ king_takes_king ∈ get_all_valid_moves regicide_game
  ∧ (∃ g' info,
       make_move regicide_game king_takes_king = Return (g', (true, info))
       ∧ chain_available info = true
       ∧ ¬ king_on_board g' P2
       ∧ game_over g' = false ∧ winner g' = None ∧ win_reason g' = None).
Proof.
  split; [reflexivity |].
  split; [by_evaluation |].
  outcome_by_evaluation.
Qed.

(** Whatever the position, [_check_game_state] either leaves the game as
    it is or ends it with a winner; a draw that [check_win_condition]
    reports is dropped. *)
Lemma check_game_state_drops_draws (g g' : DabloGame) :
  _check_game_state g = Return g' →
  g' = g
  ∨ (∃ w, game_over g' = true ∧ winner g' = Some w
          ∧ win_reason g' ≠ Some MOVE_LIMIT
          ∧ win_reason g' ≠ Some KINGS_ONLY_DRAW).
Proof.
  unfold _check_game_state.
  destruct (get_king_position g P1) as [k1 |]; simpl; [| done].
  destruct (get_king_position g P2) as [k2 |]; simpl; [| done].
  destruct (GameRules.check_win_condition _ _ _ _ _ _ _ _) as [w reason] eqn:Hwin.
  destruct w as [w |]; intros Hret; simplify_eq; [right | by left].
  exists w. simpl. split; [done |]. split; [done |].
  unfold GameRules.check_win_condition in Hwin.
  repeat case_match; simplify_eq; split; congruence.
Qed.

Lemma make_move_records_no_draw (g g' : DabloGame) (move : Move)
    (r : bool * MoveInfo) :
  make_move g move = Return (g', r) →
  win_reason g' = Some MOVE_LIMIT ∨ win_reason g' = Some KINGS_ONLY_DRAW →
  win_reason g' = win_reason g.
Proof.
  intros Hmove Hdraw. destruct (game_over g) eqn:Hover.
  - rewrite make_move_over in Hmove by done. by simplify_eq.
  - rewrite make_move_active in Hmove by done.
    pose proof (moved_same_turn_state g move) as (_ & _ & _ & _ & _ & Hreason & _).
    assert (Hend : ∀ info, end_turn (moved g move) info = Return (g', r) →
                           win_reason g' = win_reason g).
    { intros info Hend. unfold end_turn in Hend.
      destruct (_check_game_state _) as [g3 |] eqn:Hcheck; simpl in Hend; [| done].
      simplify_eq.
      apply check_game_state_drops_draws in Hcheck as [-> | (w & _ & _ & Hn1 & Hn2)].
      - exact Hreason.
      - by destruct Hdraw. }
    destruct (capture_pos move); [| by eapply Hend].
    destruct (additional_captures _ _); [by eapply Hend |].
    simplify_eq. exact Hreason.
Qed.

(** Along any sequence of applied moves the counter never decreases and
    no draw is ever recorded as the reason of the end of the game. *)
Lemma play_counter_and_draws (moves : list Move) (g : DabloGame) :
  pieces_in_sync g →
  ∃ g', play g moves = Return g'
        ∧ pieces_in_sync g'
        ∧ move_count g ≤ move_count g'
        ∧ (win_reason g' = Some MOVE_LIMIT ∨ win_reason g' = Some KINGS_ONLY_DRAW
           → win_reason g' = win_reason g).
Proof.
  revert g. induction moves as [| m ms IH]; intros g Hs; simpl.
  - exists g. split; [done |]. split; [done |]. split; [lia | done].
  - destruct (make_move_sync g m Hs) as (g1 & r & Hm & Hs1 & Hle & _).
    rewrite Hm; simpl.
    destruct (IH g1 Hs1) as (g' & Hplay & Hs' & Hle' & Hdraw).
    exists g'. split; [done |]. split; [done |]. split; [lia |].
    intros Hd. rewrite (Hdraw Hd).
    apply (make_move_records_no_draw _ _ _ _ Hm).
    by rewrite <- (Hdraw Hd).
Qed.

(** C2 on the code.  Player 1 has only the king, Player 2 the king and
    one warrior.  The king of Player 1 takes the warrior, which is a move
    that [get_all_valid_moves] offers; no further capture follows and the
    turn passes.  Both players now have exactly one piece, their king,
    and [check_win_condition] reports the kings-only draw, but the game
    is not over and no reason is recorded. *)
Theorem kings_only_draw_is_not_recorded :
  king_takes_warrior ∈ get_all_valid_moves kings_game
  ∧ (∃ g' info,
       make_move kings_game king_takes_warrior = Return (g', (true, info))
       ∧ chain_available info = false
       ∧ current_player g' = opponent (current_player kings_game)
       ∧ size (p1_pieces g') = 1%nat ∧ size (p2_pieces g') = 1%nat
       ∧ king_on_board g' P1 ∧ king_on_board g' P2
       ∧ GameRules.check_win_condition 1 1 true true
           (move_count g') (move_limit (config g'))
           (bool_decide (get_all_valid_moves g' ≠ [])) (current_player g')
         = (None, Some KINGS_ONLY_DRAW)
       ∧ game_over g' = false ∧ winner g' = None ∧ win_reason g' = None).
Proof.
  split; [by_evaluation |].
  outcome_by_evaluation.
Qed.

(** C3 on the code.  On a 10 x 10 board with move limit 50, fifty moves
    are played, each offered by [get_all_valid_moves] and accepted by
    [make_move].  The counter then equals the limit, both kings stand,
    each side has two pieces and the player to move has a move, so
    [check_win_condition] reports the move-limit draw; but the game is
    not over, no reason is recorded, and a fifty-first move is accepted. *)
Theorem move_limit_draw_is_not_recorded :
  config_in_bounds (config long_game)
  ∧ (∃ g50,
       legal_play long_game long_game_moves = Some g50
       ∧ move_count g50 = 50 ∧ move_limit (config g50) = 50
       ∧ size (p1_pieces g50) = 2%nat ∧ size (p2_pieces g50) = 2%nat
       ∧ king_on_board g50 P1 ∧ king_on_board g50 P2
       ∧ get_all_valid_moves g50 ≠ []
       ∧ GameRules.check_win_condition 2 2 true true
           (move_count g50) (move_limit (config g50)) true (current_player g50)
         = (None, Some MOVE_LIMIT)
       ∧ game_over g50 = false ∧ winner g50 = None ∧ win_reason g50 = None
       ∧ (move_count <$> legal_play g50 [p1_step 4 7]) = Some 51
       ∧ (game_over <$> legal_play g50 [p1_step 4 7]) = Some false).
Proof.
  split; [vm_compute; intuition discriminate |].
  outcome_by_evaluation.
Qed.

(** ** King safety in the heuristic evaluator *)

(** A game made by [_create_temp_game_state] has both sets of occupied
    positions empty, so [get_all_valid_moves] finds nothing to move,
    whatever the board holds. *)
Lemma temp_game_offers_no_moves (npc : SmartNPCPlayer) (game : DabloGame)
    (board : gmap Pos PieceType) (player_to_move : option Player) :
  get_all_valid_moves
    (_create_temp_game_state npc game board player_to_move) = [].
Proof.
  unfold _create_temp_game_state, __init__, get_all_valid_moves, player_pieces.
  simpl. case_bool_decide; simpl; by rewrite elements_empty.
Qed.

(** C8 on the code.  Player 1, at difficulty "medium", scores the quiet
    warrior step (5.0, 4.0) to (4.0, 4.0).  The king of Player 1 stays on
    (3.0, 2.0).  In the resulting position the king of Player 2 can
    capture it: the capture is a move of the piece on (2.0, 2.0) in the
    temporary game, and it is among the legal moves of the real game
    after the step.  The temporary game offers no move at all, so the
    evaluator goes on to the distance rule: the king-safety term is the
    close-distance penalty times the weight (-4.0 * 0.5), not the
    capture-danger penalty times the weight (-5.0 * 0.5). *)
Theorem exposed_king_gets_no_capture_danger_penalty :
  let board_after_move :=
    _simulate_move_on_board (board_state exposed_king_game) quiet_step in
  let temp_game :=
    _create_temp_game_state medium_npc exposed_king_game board_after_move
                            (Some (opponent_id medium_npc)) in
  let king_capture := mk_capture (4, 4) (8, 4) (6, 4) in
  quiet_step ∈ get_all_valid_moves exposed_king_game
  ∧ find_king_on_board board_after_move P1_KING = Some (6, 4)
  ∧ king_capture ∈ get_valid_moves temp_game (4, 4)
  ∧ (∃ g' info,
       make_move exposed_king_game quiet_step = Return (g', (true, info))
       ∧ king_capture ∈ get_all_valid_moves g')
  ∧ get_all_valid_moves temp_game = []
  ∧ (king_safety_term medium_npc exposed_king_game quiet_step
     == close_distance_penalty npc_king_safety
        * king_safety (settings medium_npc))%Q
  ∧ ¬ (king_safety_term medium_npc exposed_king_game quiet_step
       == capture_danger_penalty npc_king_safety
          * king_safety (settings medium_npc))%Q.
Proof.
  intros board_after_move temp_game king_capture.
  assert (Hterm : king_safety_term medium_npc exposed_king_game quiet_step
                  = (-20 # 10)%Q) by (vm_compute; reflexivity).
  split; [by_evaluation |].
  split; [vm_compute; reflexivity |].
  split; [by_evaluation |].
  split; [outcome_by_evaluation |].
  split; [apply temp_game_offers_no_moves |].
  rewrite Hterm. split; [reflexivity | discriminate].
Qed.

(** ** Further properties: the board graph *)

Lemma elem_of_node_list (rows cols : Z) (pos : Pos) :
  pos ∈ node_list rows cols
  ↔ ∃ r c, 0 ≤ r < rows ∧ 0 ≤ c < cols
           ∧ (pos = (2 * r, 2 * c)
              ∨ (r < rows - 1 ∧ c < cols - 1 ∧ pos = (2 * r + 1, 2 * c + 1))).
Proof.
  unfold node_list, range. rewrite list_elem_of_bind. split.
  - intros (r & Hin & Hr). apply list_elem_of_bind in Hin as (c & Hin & Hc).
    apply elem_of_seqZ in Hr, Hc. exists r, c.
    split; [lia |]. split; [lia |].
    apply elem_of_cons in Hin as [-> | Hin]; [by left |].
    case_bool_decide as Hb; [| by apply elem_of_nil in Hin].
    apply list_elem_of_singleton in Hin as ->. right. tauto.
  - intros (r & c & Hr & Hc & Hpos). exists r.
    split; [| apply elem_of_seqZ; lia].
    apply list_elem_of_bind. exists c. split; [| apply elem_of_seqZ; lia].
    destruct Hpos as [-> | (Hr' & Hc' & ->)]; [by left |].
    right. rewrite bool_decide_eq_true_2 by done. by left.
Qed.

Lemma even_halves (x : Z) : Z.even x = true → x = 2 * (x / 2).
Proof.
  intros H. apply Z.even_spec in H as [k Hk]. subst x.
  rewrite (Z.mul_comm 2 k), Z.div_mul by lia. lia.
Qed.

Lemma odd_halves (x : Z) : Z.odd x = true → x = 2 * (x / 2) + 1.
Proof.
  intros H. apply Z.odd_spec in H as [k Hk]. subst x.
  rewrite (Z.mul_comm 2 k), Z.div_add_l by lia.
  change (1 / 2) with 0. lia.
Qed.

Lemma elem_of_all_nodes (rows cols : Z) (pos : Pos) :
  pos ∈ all_nodes rows cols
  ↔ primary_node rows cols pos ∨ secondary_node rows cols pos.
Proof.
  unfold all_nodes. rewrite elem_of_list_to_set, elem_of_node_list.
  unfold primary_node, secondary_node. destruct pos as [x y]; simpl. split.
  - intros (r & c & Hr & Hc & [Hpos | (Hr' & Hc' & Hpos)]); simplify_eq.
    + left. rewrite !Z.even_mul. simpl. lia.
    + right. rewrite !Z.odd_add, !Z.odd_mul. simpl. lia.
  - intros [(Hx & Hy & Hbx & Hby) | (Hx & Hy & Hbx & Hby)].
    + exists (x / 2), (y / 2).
      apply even_halves in Hx, Hy. split; [lia |]. split; [lia |].
      left. congruence.
    + exists (x / 2), (y / 2).
      apply odd_halves in Hx, Hy. split; [lia |]. split; [lia |].
      right. split; [lia |]. split; [lia |]. congruence.
Qed.

Lemma board_graph_nodes_aux (cfg : DabloConfig) (pos : Pos) :
  is_Some (_create_board_graph cfg !! pos)
  ↔ primary_node (board_rows cfg) (board_cols cfg) pos
    ∨ secondary_node (board_rows cfg) (board_cols cfg) pos.
Proof.
  rewrite board_graph_lookup, <- elem_of_all_nodes.
  destruct (decide (pos ∈ all_nodes (board_rows cfg) (board_cols cfg)))
    as [Hin | Hout].
  - split; [done | intros _; by eexists].
  - split; [intros [l Hl]; done | done].
Qed.

(** X1.  The keys of the graph are exactly the primary positions within the
    bounds and the centres of the unit cells. *)
Theorem board_graph_nodes (cfg : DabloConfig) (pos : Pos) :
  is_Some (_create_board_graph cfg !! pos)
  ↔ primary_node (board_rows cfg) (board_cols cfg) pos
    ∨ secondary_node (board_rows cfg) (board_cols cfg) pos.
Proof. exact (board_graph_nodes_aux cfg pos). Qed.

(** X2.  Every listed neighbour is itself a key of the graph, differs from
    the position, and lies one primary step or one diagonal half step
    away.  No position has more than eight neighbours. *)
Theorem board_graph_neighbours_on_board (cfg : DabloConfig) (a b : Pos) :
  b ∈ MovementValidator.neighbours (_create_board_graph cfg) a →
  is_Some (_create_board_graph cfg !! a)
  ∧ is_Some (_create_board_graph cfg !! b)
  ∧ a ≠ b
  ∧ sq_dist a b ≤ 4
  ∧ (length (MovementValidator.neighbours (_create_board_graph cfg) a) ≤ 8)%nat.
Proof.
  intros Hadj. pose proof Hadj as Hn.
  apply elem_of_neighbours in Hn as (Ha & Hb & Hp).
  rewrite !board_graph_lookup.
  rewrite !decide_True by done.
  split; [by eexists |]. split; [by eexists |].
  pose proof (potential_neighbors_offset a b Hp) as Hoff.
  rewrite !elem_of_cons, elem_of_nil in Hoff.
  destruct a as [r c], b as [r' c']; unfold sq_dist; simpl in *.
  split; [intros ?; simplify_eq; destruct Hoff as [H | [H | [H | []]]];
          injection H; lia |].
  split; [destruct Hoff as [H | [H | [H | []]]]; injection H; nia |].
  unfold MovementValidator.neighbours. rewrite board_graph_lookup.
  rewrite decide_True by done. simpl.
  etrans; [apply length_filter |].
  unfold potential_neighbors. destruct (Z.even r && Z.even c); simpl; lia.
Qed.

Lemma board_graph_neighbours_on_board_witness :
  (6, 4) ∈ MovementValidator.neighbours (_create_board_graph create_default) (5, 3)
  ∧ is_Some (_create_board_graph create_default !! (6, 4)).
Proof.
  assert (H : (6, 4) ∈ MovementValidator.neighbours
                (_create_board_graph create_default) (5, 3))
    by (vm_compute; pick_member).
  split; [exact H |].
  exact (proj1 (proj2 (board_graph_neighbours_on_board create_default
                         (5, 3) (6, 4) H))).
Defined.

Lemma filter_all {A : Type} (P : A → Prop) `{∀ x, Decision (P x)} (l : list A) :
  (∀ x, x ∈ l → P x) → filter P l = l.
Proof.
  induction l as [| x l IH]; intros Hall; [done |].
  rewrite filter_cons_True by (apply Hall; by left).
  f_equal. apply IH. intros y Hy. apply Hall. by right.
Qed.

(** X3.  The centre of a unit cell is joined to the four corners of the cell
    and to nothing else; a primary position that is not on the rim of the
    board has all eight neighbours. *)
Theorem board_graph_full_degree (cfg : DabloConfig) (pos : Pos) :
  (secondary_node (board_rows cfg) (board_cols cfg) pos →
   MovementValidator.neighbours (_create_board_graph cfg) pos
   = [ (pos.1 - 1, pos.2 - 1); (pos.1 - 1, pos.2 + 1);
       (pos.1 + 1, pos.2 - 1); (pos.1 + 1, pos.2 + 1) ])
  ∧ (primary_node (board_rows cfg) (board_cols cfg) pos →
     0 < pos.1 < 2 * (board_rows cfg - 1) →
     0 < pos.2 < 2 * (board_cols cfg - 1) →
     length (MovementValidator.neighbours (_create_board_graph cfg) pos) = 8%nat).
Proof.
  unfold MovementValidator.neighbours. rewrite board_graph_lookup.
  destruct pos as [x y]; simpl. split.
  - intros Hsec.
    rewrite decide_True by (apply elem_of_all_nodes; by right). simpl.
    destruct Hsec as (Hx & Hy & Hbx & Hby); simpl in *.
    assert (Z.even x = false) as Hex by (by rewrite <- Z.negb_odd, Hx).
    unfold potential_neighbors. rewrite Hex. simpl.
    apply filter_all. intros p Hp. apply elem_of_all_nodes. left.
    rewrite !elem_of_cons, elem_of_nil in Hp.
    unfold primary_node.
    destruct Hp as [-> | [-> | [-> | [-> | []]]]]; simpl;
      rewrite ?Z.even_sub, ?Z.even_add, <- !Z.negb_odd, Hx, Hy; simpl; lia.
  - intros Hprim Hix Hiy.
    rewrite decide_True by (apply elem_of_all_nodes; by left). simpl.
    destruct Hprim as (Hx & Hy & Hbx & Hby); simpl in *.
    unfold potential_neighbors. rewrite Hx, Hy. simpl.
    rewrite filter_all; [done |].
    intros p Hp. apply elem_of_all_nodes.
    rewrite !elem_of_cons, elem_of_nil in Hp.
    unfold primary_node, secondary_node.
    apply even_halves in Hx as Hx2. apply even_halves in Hy as Hy2.
    destruct Hp as [-> | [-> | [-> | [-> | [-> | [-> | [-> | [-> | []]]]]]]]];
      simpl;
      rewrite ?Z.even_sub, ?Z.even_add, ?Z.odd_sub, ?Z.odd_add,
              <- ?Z.negb_even, ?Hx, ?Hy; simpl;
      first [ left; lia | right; lia ].
Qed.

Lemma board_graph_full_degree_witness :
  secondary_node (board_rows create_default) (board_cols create_default) (5, 3)
  ∧ MovementValidator.neighbours (_create_board_graph create_default) (5, 3)
    = [ (4, 2); (4, 4); (6, 2); (6, 4) ].
Proof.
  assert (H : secondary_node (board_rows create_default)
                (board_cols create_default) (5, 3))
    by (vm_compute; intuition discriminate).
  split; [exact H |].
  exact (proj1 (board_graph_full_degree create_default (5, 3)) H).
Defined.

(** ** Further properties: pieces, players and the win rules *)

(** X4.  The capture rule in terms of the integers behind the pieces: the two
    pieces have opposite signs and the target's rank does not exceed the
    attacker's.  Hence only the opposing king captures a king, and a
    warrior captures nothing but an opposing warrior. *)
Theorem capture_hierarchy (attacker target : PieceType) :
  (can_capture attacker target = true
   ↔ value attacker * value target < 0
     ∧ get_piece_rank target ≤ get_piece_rank attacker)
  ∧ (can_capture attacker P1_KING = true ↔ attacker = P2_KING)
  ∧ (can_capture attacker P2_KING = true ↔ attacker = P1_KING)
  ∧ (can_capture P1_WARRIOR target = true ↔ target = P2_WARRIOR)
  ∧ (can_capture P2_WARRIOR target = true ↔ target = P1_WARRIOR).
Proof.
  unfold get_piece_rank.
  destruct attacker, target; vm_compute; intuition (discriminate || lia).
Qed.

(** X5.  [from_int] recovers a player from its integer and from every integer
    of the same sign, fails exactly for zero, and [opponent] is the
    involution that negates the integer. *)
Theorem player_integer_round_trip (p : Player) (v : Z) :
  from_int (player_value p) = Some p
  ∧ (from_int v = None ↔ v = 0)
  ∧ (from_int v = Some P1 ↔ 0 < v)
  ∧ (from_int v = Some P2 ↔ v < 0)
  ∧ opponent (opponent p) = p
  ∧ opponent p ≠ p
  ∧ player_value (opponent p) = - player_value p.
Proof.
  split; [by destruct p |].
  unfold from_int.
  destruct (0 <? v) eqn:Hpos, (v <? 0) eqn:Hneg;
    repeat split; try (intros ?; simplify_eq); try lia; try done;
    by destruct p.
Qed.

(** X6.  The two components of the result of [check_win_condition] fit
    together: a winner comes with king capture, lone king or stalemate; a
    draw reason comes without a winner; a stalemate is won by the
    opponent of the player to move; no reason means no winner.  The
    move limit and the stalemate are only looked at when no side is down
    to one piece against a side that has any. *)
Theorem check_win_condition_outcomes
    (n1 n2 : Z) (k1 k2 : bool) (count limit : Z) (moves : bool)
    (current : Player) :
  let outcome :=
    GameRules.check_win_condition n1 n2 k1 k2 count limit moves current in
  match outcome with
  | (Some w, Some KING_CAPTURE) =>
      (k1 = false ∧ w = P2) ∨ (k1 = true ∧ k2 = false ∧ w = P1)
  | (Some w, Some LONE_KING) =>
      k1 = true ∧ k2 = true
      ∧ ((n1 = 1 ∧ 1 < n2 ∧ w = P2) ∨ (n2 = 1 ∧ 1 < n1 ∧ w = P1))
  | (Some w, Some STALEMATE) =>
      k1 = true ∧ k2 = true
      ∧ ¬ (n1 = 1 ∧ 1 ≤ n2) ∧ ¬ (n2 = 1 ∧ 1 ≤ n1) ∧ count < limit
      ∧ moves = false ∧ w = opponent current
  | (None, Some KINGS_ONLY_DRAW) => k1 = true ∧ k2 = true ∧ n1 = 1 ∧ n2 = 1
  | (None, Some MOVE_LIMIT) =>
      k1 = true ∧ k2 = true
      ∧ ¬ (n1 = 1 ∧ 1 ≤ n2) ∧ ¬ (n2 = 1 ∧ 1 ≤ n1) ∧ limit ≤ count
  | (None, None) =>
      k1 = true ∧ k2 = true
      ∧ ¬ (n1 = 1 ∧ 1 ≤ n2) ∧ ¬ (n2 = 1 ∧ 1 ≤ n1) ∧ count < limit ∧ moves = true
  | _ => False
  end.
Proof.
  unfold GameRules.check_win_condition.
  destruct k1, k2; simpl; try tauto.
  repeat case_bool_decide; simpl; destruct moves; simpl; try (intuition lia).
Qed.

(** ** Further properties: move generation *)

Lemma can_capture_opponent (attacker target : PieceType) :
  can_capture attacker target = true →
  target ≠ EMPTY ∧ (value attacker * value target <? 0) = true.
Proof. destruct attacker, target; vm_compute; intuition discriminate. Qed.

Lemma moves_via_sound (g : DabloGame) (pos neighbor : Pos)
    (piece : PieceType) (m : Move) :
  m ∈ moves_via g pos piece neighbor →
  from_pos m = pos
  ∧ board_state g !! to_pos m = Some EMPTY
  ∧ passes_validation g piece m.
Proof.
  unfold moves_via, passes_validation. intros Hm.
  case_bool_decide as Hempty.
  - destruct (GameRules.is_valid_regular_move _ _ _ _ _) eqn:Hvalid;
      [| by apply elem_of_nil in Hm].
    apply list_elem_of_singleton in Hm as ->. simpl.
    split; [done |]. split; [| done].
    unfold GameRules.is_valid_regular_move in Hvalid.
    by case_bool_decide as Hto.
  - destruct (_ <? 0); [| by apply elem_of_nil in Hm].
    destruct (GameRules.is_valid_capture_move _ _ _ _ _ _ _) eqn:Hvalid;
      [| by apply elem_of_nil in Hm].
    apply list_elem_of_singleton in Hm as ->. simpl.
    split; [done |]. split.
    + unfold GameRules.is_valid_capture_move in Hvalid.
      by case_bool_decide as Hto.
    + destruct (board_state g !! neighbor) as [target |] eqn:Htarget;
        simpl in *; [eauto | done].
Qed.

Lemma get_valid_moves_sound_aux (g : DabloGame) (pos : Pos) (m : Move) :
  m ∈ get_valid_moves g pos →
  ∃ piece,
    board_state g !! pos = Some piece
    ∧ piece_of (current_player g) piece
    ∧ from_pos m = pos
    ∧ board_state g !! to_pos m = Some EMPTY
    ∧ passes_validation g piece m.
Proof.
  unfold get_valid_moves.
  destruct (board_state g !! pos) as [piece |]; [| by intros ?%elem_of_nil].
  destruct (bool_decide (piece = EMPTY)) eqn:Hempty; simpl;
    [by intros ?%elem_of_nil |].
  destruct (Bool.eqb _ _) eqn:Howner; simpl; [| by intros ?%elem_of_nil].
  intros (neighbor & Hm & _)%list_elem_of_bind.
  exists piece. split; [done |]. split.
  - split; [by apply bool_decide_eq_false in Hempty |].
    by apply Bool.eqb_prop.
  - by apply moves_via_sound in Hm.
Qed.

(** X7.  Every move that [get_valid_moves] returns starts at the queried
    position, where a piece of the player to move stands, ends on a key
    of the board that holds [EMPTY], and passes
    [is_valid_regular_move] or [is_valid_capture_move] when it is checked
    again on the same board. *)
Theorem get_valid_moves_sound (g : DabloGame) (pos : Pos) (m : Move) :
  m ∈ get_valid_moves g pos →
  ∃ piece,
    board_state g !! pos = Some piece
    ∧ piece_of (current_player g) piece
    ∧ from_pos m = pos
    ∧ board_state g !! to_pos m = Some EMPTY
    ∧ passes_validation g piece m.
Proof. exact (get_valid_moves_sound_aux g pos m). Qed.

Lemma get_valid_moves_sound_witness :
  mk_move (8, 0) (7, 1) ∈ get_valid_moves standard_game (8, 0)
  ∧ board_state standard_game !! (7, 1) = Some EMPTY.
Proof.
  assert (H : mk_move (8, 0) (7, 1) ∈ get_valid_moves standard_game (8, 0))
    by by_evaluation.
  split; [exact H |].
  destruct (get_valid_moves_sound standard_game (8, 0) _ H)
    as (piece & _ & _ & _ & Hto & _).
  exact Hto.
Defined.

(** X8.  Conversely, for a piece of the player to move, every regular move
    that [is_valid_regular_move] accepts and every capture that
    [is_valid_capture_move] accepts is returned by [get_valid_moves]. *)
Theorem get_valid_moves_complete (g : DabloGame) (pos : Pos)
    (piece : PieceType) (m : Move) :
  board_state g !! pos = Some piece →
  piece_of (current_player g) piece →
  from_pos m = pos →
  passes_validation g piece m →
  m ∈ get_valid_moves g pos.
Proof.
  intros Hpiece [Hne Howner] Hfrom Hvalid.
  unfold get_valid_moves. rewrite Hpiece.
  rewrite bool_decide_eq_false_2 by done.
  rewrite Howner, Bool.eqb_reflx. simpl.
  destruct m as [from to captured]. simpl in *. subst from.
  unfold passes_validation in Hvalid; simpl in Hvalid.
  apply list_elem_of_bind. destruct captured as [captured |].
  - destruct Hvalid as (target & Htarget & Hvalid). exists captured.
    pose proof Hvalid as Hparts.
    unfold GameRules.is_valid_capture_move in Hparts.
    repeat (case_bool_decide || case_match); simplify_eq; try done.
    split.
    + unfold moves_via. rewrite Htarget. simpl.
      match goal with
      | H : negb (can_capture _ _) = false |- _ =>
          apply negb_false_iff, can_capture_opponent in H as [Ht Hopp]
      end.
      rewrite bool_decide_eq_false_2 by done. rewrite Hopp.
      rewrite Hvalid. by left.
    + match goal with
      | H : negb (MovementValidator.is_adjacent _ _ _) = false |- _ =>
          apply negb_false_iff in H; unfold MovementValidator.is_adjacent in H;
          by apply bool_decide_eq_true in H
      end.
  - exists to. pose proof Hvalid as Hparts.
    unfold GameRules.is_valid_regular_move in Hparts.
    repeat (case_bool_decide || case_match); simplify_eq; try done.
    split.
    + unfold moves_via.
      match goal with
      | H : board_state g !! to = Some EMPTY |- _ => rewrite H
      end.
      simpl. rewrite Hvalid. by left.
    + match goal with
      | H : negb (MovementValidator.is_adjacent _ _ _) = false |- _ =>
          apply negb_false_iff in H; unfold MovementValidator.is_adjacent in H;
          by apply bool_decide_eq_true in H
      end.
Qed.

Lemma get_valid_moves_complete_witness :
  board_state standard_game !! (8, 0) = Some P1_WARRIOR
  ∧ mk_move (8, 0) (6, 0) ∈ get_valid_moves standard_game (8, 0).
Proof.
  assert (H1 : board_state standard_game !! (8, 0) = Some P1_WARRIOR)
    by (vm_compute; reflexivity).
  assert (H2 : piece_of (current_player standard_game) P1_WARRIOR)
    by (split; [discriminate | reflexivity]).
  assert (H3 : passes_validation standard_game P1_WARRIOR (mk_move (8, 0) (6, 0)))
    by (vm_compute; reflexivity).
  split; [exact H1 |].
  exact (get_valid_moves_complete standard_game (8, 0) P1_WARRIOR
           (mk_move (8, 0) (6, 0)) H1 H2 eq_refl H3).
Defined.

(** ** Further properties: the legal move set and the game's invariants *)

(** X9.  Under the bookkeeping invariant and outside a capture chain the
    legal move set is the union of [get_valid_moves] over the whole
    board: nothing is lost by iterating over the set of the player to
    move only. *)
Theorem get_all_valid_moves_covers_board (g : DabloGame) (m : Move) :
  pieces_in_sync g →
  capture_sequence g = false →
  (m ∈ get_all_valid_moves g ↔ ∃ pos, m ∈ get_valid_moves g pos).
Proof.
  intros Hs Hchain. unfold get_all_valid_moves. rewrite Hchain.
  rewrite list_elem_of_bind. split.
  - intros (pos & Hm & _). eauto.
  - intros (pos & Hm). exists pos. split; [done |].
    apply elem_of_elements.
    apply get_valid_moves_sound_aux in Hm as (piece & Hpiece & [Hne Hown] & _).
    unfold player_pieces. destruct (Hs pos) as [H1 H2].
    destruct (current_player g); simpl in *.
    + apply H1. exists piece. split; [done |]. lia.
    + apply H2. exists piece. split; [done |].
      destruct piece; simpl in *; try done; lia.
Qed.

Lemma get_all_valid_moves_covers_board_witness :
  pieces_in_sync standard_game
  ∧ capture_sequence standard_game = false
  ∧ (mk_move (8, 0) (6, 0) ∈ get_all_valid_moves standard_game
     ↔ ∃ pos, mk_move (8, 0) (6, 0) ∈ get_valid_moves standard_game pos).
Proof.
  assert (Hs : pieces_in_sync standard_game) by apply init_sync.
  assert (Hc : capture_sequence standard_game = false) by reflexivity.
  split; [exact Hs |]. split; [exact Hc |].
  exact (get_all_valid_moves_covers_board standard_game _ Hs Hc).
Defined.

Lemma check_game_state_shape (g g' : DabloGame) :
  _check_game_state g = Return g' →
  g' = g ∨ ∃ w r, g' = end_game g w (Some r).
Proof.
  unfold _check_game_state.
  destruct (get_king_position g P1) as [k1 |]; simpl; [| done].
  destruct (get_king_position g P2) as [k2 |]; simpl; [| done].
  destruct (GameRules.check_win_condition _ _ _ _ _ _ _ _) as [w reason] eqn:Hwin.
  destruct w as [w |]; intros Hret; simplify_eq; [right | by left].
  unfold GameRules.check_win_condition in Hwin.
  repeat case_match; simplify_eq; eauto.
Qed.

Lemma clear_board_same_turn_state (g : DabloGame) :
  same_turn_state g (clear_board g)
  ∧ move_count (clear_board g) = move_count g.
Proof. unfold same_turn_state, clear_board; simpl. tauto. Qed.

Lemma same_turn_state_trans (g1 g2 g3 : DabloGame) :
  same_turn_state g1 g2 → same_turn_state g2 g3 → same_turn_state g1 g3.
Proof. unfold same_turn_state. intuition congruence. Qed.

Lemma setup_custom_position_same_turn_state (g : DabloGame)
    (pieces : list (Pos * PieceType)) :
  same_turn_state g (setup_custom_position g pieces)
  ∧ move_count (setup_custom_position g pieces) = move_count g.
Proof.
  unfold setup_custom_position.
  destruct (clear_board_same_turn_state g) as [Hst Hmc].
  revert Hst Hmc. generalize (clear_board g).
  induction pieces as [| item pieces IH]; intros acc Hst Hmc; simpl; [done |].
  apply IH; case_bool_decide; try done.
  - eapply same_turn_state_trans; [exact Hst |].
    apply add_piece_same_turn_state.
  - rewrite <- Hmc. apply add_piece_same_turn_state.
Qed.

Lemma add_setup_same_turn_state (g : DabloGame)
    (setup : list (PieceType * list Pos)) :
  same_turn_state g (add_setup g setup)
  ∧ move_count (add_setup g setup) = move_count g.
Proof.
  unfold add_setup.
  cut (∀ acc,
         same_turn_state g acc ∧ move_count acc = move_count g →
         same_turn_state g
           (foldl (λ acc item,
                     foldl (λ acc' pos, (add_piece acc' pos item.1).2)
                           acc item.2) acc setup)
         ∧ move_count
             (foldl (λ acc item,
                       foldl (λ acc' pos, (add_piece acc' pos item.1).2)
                             acc item.2) acc setup)
           = move_count g).
  { intros Hcut. apply Hcut. unfold same_turn_state. tauto. }
  induction setup as [| item setup IH]; intros acc Hacc; simpl; [done |].
  apply IH. destruct item as [piece_type positions]; simpl. clear IH.
  revert acc Hacc.
  induction positions as [| pos positions IHp]; intros acc [Hst Hmc]; simpl;
    [done |].
  apply IHp. split.
  - eapply same_turn_state_trans; [exact Hst |].
    apply add_piece_same_turn_state.
  - rewrite <- Hmc. apply add_piece_same_turn_state.
Qed.

Lemma turn_state_coherent_frame (g g' : DabloGame) :
  same_turn_state g g' → move_count g' = move_count g →
  turn_state_coherent g → turn_state_coherent g'.
Proof.
  unfold same_turn_state, turn_state_coherent.
  intros (-> & -> & _ & -> & -> & -> & -> & ->) ->. done.
Qed.

Lemma make_move_coherent (g g' : DabloGame) (move : Move) (r : bool * MoveInfo) :
  make_move g move = Return (g', r) →
  turn_state_coherent g → turn_state_coherent g'.
Proof.
  intros Hmove Hco. destruct (game_over g) eqn:Hover.
  - rewrite make_move_over in Hmove by done. by simplify_eq.
  - rewrite make_move_active in Hmove by done.
    pose proof (moved_same_turn_state g move) as Hst.
    pose proof (moved_move_count g move) as Hmc.
    destruct Hco as (Hgraph & _ & Hcount & Hactive & _).
    destruct (Hactive Hover) as [Hw Hr].
    destruct Hst as (Hcfg & Hnodes & _ & Hover' & Hw' & Hr' & _).
    assert (Hend : ∀ info, end_turn (moved g move) info = Return (g', r) →
                           turn_state_coherent g').
    { intros info Hend. unfold end_turn in Hend.
      destruct (_check_game_state _) as [g3 |] eqn:Hcheck; simpl in Hend; [| done].
      simplify_eq.
      apply check_game_state_shape in Hcheck as [-> | (w & reason & ->)];
        unfold turn_state_coherent; simpl;
        rewrite Hcfg, Hnodes, ?Hover', ?Hw', ?Hr', Hmc.
      - split; [done |]. split; [split; [done | by intros []] |].
        split; [lia |]. rewrite Hover, Hw, Hr. split; [done | done].
      - split; [done |]. split; [split; [done | by intros []] |].
        split; [lia |]. split; [done | eauto]. }
    destruct (capture_pos move); [| by eapply Hend].
    destruct (additional_captures _ _); [by eapply Hend |].
    simplify_eq. unfold turn_state_coherent; simpl.
    rewrite Hcfg, Hnodes, Hover', Hw', Hr', Hmc, Hover, Hw, Hr.
    split; [done |]. split; [split; [eauto | done] |].
    split; [lia |]. split; [done | done].
Qed.

Lemma built_game_turn_state_aux (g : DabloGame) :
  built g →
  nodes g = _create_board_graph (config g)
  ∧ (capture_sequence g = true ↔ is_Some (capturing_piece g))
  ∧ 0 ≤ move_count g
  ∧ (game_over g = false → winner g = None ∧ win_reason g = None)
  ∧ (game_over g = true → is_Some (winner g) ∧ is_Some (win_reason g)).
Proof.
  intros Hb. change (turn_state_coherent g).
  induction Hb as [cfg s | g pos pt _ IH | g pos _ IH | g _ IH
                   | g pieces _ IH | g move g' r _ IH Hmove].
  - unfold __init__. case_bool_decide.
    + unfold turn_state_coherent; simpl.
      split; [done |]. split; [split; [done | by intros []] |].
      split; [lia |]. split; [done | done].
    + unfold _setup_initial_pieces.
      match goal with
      | |- turn_state_coherent (add_setup (add_setup ?g0 ?s1) ?s2) =>
          destruct (add_setup_same_turn_state g0 s1) as [H1 H1'];
          destruct (add_setup_same_turn_state (add_setup g0 s1) s2) as [H2 H2'];
          apply (turn_state_coherent_frame g0);
            [by eapply same_turn_state_trans | congruence |]
      end.
      unfold turn_state_coherent; simpl.
      split; [done |]. split; [split; [done | by intros []] |].
      split; [lia |]. split; [done | done].
  - eapply turn_state_coherent_frame; [apply add_piece_same_turn_state.. | done].
  - eapply turn_state_coherent_frame; [apply remove_piece_same_turn_state.. | done].
  - eapply turn_state_coherent_frame; [apply clear_board_same_turn_state.. | done].
  - eapply turn_state_coherent_frame;
      [apply setup_custom_position_same_turn_state.. | done].
  - by eapply make_move_coherent.
Qed.

(** X10.  In every game obtained from the constructor by the public mutators
    the graph is the one built from the configuration, the chain flag is
    set exactly when a continuing piece is recorded, the counter is not
    negative, and the game-over flag, the winner and the reason are set
    together: an active game has neither winner nor reason, a finished
    game has both. *)
Theorem built_game_turn_state (g : DabloGame) :
  built g →
  nodes g = _create_board_graph (config g)
  ∧ (capture_sequence g = true ↔ is_Some (capturing_piece g))
  ∧ 0 ≤ move_count g
  ∧ (game_over g = false → winner g = None ∧ win_reason g = None)
  ∧ (game_over g = true → is_Some (winner g) ∧ is_Some (win_reason g)).
Proof. exact (built_game_turn_state_aux g). Qed.

Lemma built_game_turn_state_witness :
  built standard_game
  ∧ nodes standard_game = _create_board_graph (config standard_game).
Proof.
  assert (Hb : built standard_game) by apply built_init.
  split; [exact Hb |].
  exact (proj1 (built_game_turn_state standard_game Hb)).
Defined.

Lemma bind_length_le {A B : Type} (f : A → list B) (l : list A) :
  (∀ x, (length (f x) ≤ 1)%nat) → (length (l ≫= f) ≤ length l)%nat.
Proof.
  intros Hf. induction l as [| x l IH]; [done |].
  rewrite bind_cons, length_app. specialize (Hf x). cbn [length]. lia.
Qed.

(** X11.  In a game obtained from the constructor a piece has at most eight
    moves: each neighbour yields either a regular move, or a capture, or
    nothing. *)
Theorem at_most_eight_moves (g : DabloGame) (pos : Pos) :
  built g → (length (get_valid_moves g pos) ≤ 8)%nat.
Proof.
  intros Hb. apply built_game_turn_state_aux in Hb as (Hgraph & _).
  unfold get_valid_moves.
  destruct (board_state g !! pos) as [piece |]; simpl; [| lia].
  destruct (_ || _); simpl; [lia |].
  etrans; [apply bind_length_le |].
  - intros neighbor. unfold moves_via. repeat case_match; simpl; lia.
  - rewrite Hgraph. unfold MovementValidator.neighbours.
    rewrite board_graph_lookup. case_decide; simpl; [| lia].
    etrans; [apply length_filter |].
    unfold potential_neighbors. destruct pos as [r c].
    destruct (Z.even r && Z.even c); simpl; lia.
Qed.

Lemma at_most_eight_moves_witness :
  built standard_game
  ∧ (length (get_valid_moves standard_game (8, 2)%Z) ≤ 8)%nat.
Proof.
  assert (Hb : built standard_game) by apply built_init.
  split; [exact Hb |].
  exact (at_most_eight_moves standard_game (8, 2) Hb).
Defined.

(** ** Further properties: what a legal move does *)

Lemma remove_piece_result (g : DabloGame) (pos : Pos) :
  (remove_piece g pos).1 = default EMPTY (board_state g !! pos)
  ∧ board_state (remove_piece g pos).2 = <[pos := EMPTY]> (board_state g)
  ∧ p1_pieces (remove_piece g pos).2
    = (if 0 <? value (default EMPTY (board_state g !! pos))
       then p1_pieces g ∖ {[pos]} else p1_pieces g)
  ∧ p2_pieces (remove_piece g pos).2
    = (if value (default EMPTY (board_state g !! pos)) <? 0
       then p2_pieces g ∖ {[pos]} else p2_pieces g).
Proof.
  unfold remove_piece.
  destruct (0 <? value _) eqn:Hpos; [| destruct (value _ <? 0) eqn:Hneg];
    simpl; repeat split; try reflexivity.
  assert ((value (default EMPTY (board_state g !! pos)) <? 0) = false) as ->
    by lia.
  reflexivity.
Qed.

Lemma add_piece_placed (g : DabloGame) (pos : Pos) (pt : PieceType) :
  board_state g !! pos = Some EMPTY →
  (add_piece g pos pt).1 = true
  ∧ board_state (add_piece g pos pt).2 = <[pos := pt]> (board_state g)
  ∧ p1_pieces (add_piece g pos pt).2
    = (if 0 <? value pt then {[pos]} ∪ p1_pieces g else p1_pieces g)
  ∧ p2_pieces (add_piece g pos pt).2
    = (if value pt <? 0 then {[pos]} ∪ p2_pieces g else p2_pieces g).
Proof.
  intros Hempty. unfold add_piece. rewrite Hempty. simpl.
  destruct (0 <? value pt) eqn:Hpos; [| destruct (value pt <? 0) eqn:Hneg];
    simpl; repeat split; try reflexivity.
  assert ((value pt <? 0) = false) as -> by lia. reflexivity.
Qed.

Lemma valid_capture_parts (from captured landing : Pos)
    (attacker target : PieceType) (board : gmap Pos PieceType)
    (graph : gmap Pos (list Pos)) :
  GameRules.is_valid_capture_move from captured landing attacker target
    board graph = true →
  board !! landing = Some EMPTY
  ∧ can_capture attacker target = true
  ∧ captured ∈ MovementValidator.neighbours graph from
  ∧ landing = MovementValidator.calculate_capture_landing from captured.
Proof.
  unfold GameRules.is_valid_capture_move, MovementValidator.is_adjacent.
  case_bool_decide as H1; [done |].
  destruct (can_capture attacker target); simpl; [| done].
  case_bool_decide as H2; simpl; [| done].
  case_bool_decide as H3; [done |]. done.
Qed.

Lemma legal_move_from_its_square (g : DabloGame) (m : Move) :
  m ∈ get_all_valid_moves g → m ∈ get_valid_moves g (from_pos m).
Proof.
  unfold get_all_valid_moves.
  destruct (capture_sequence g), (capturing_piece g) as [cp |];
    try (intros (pos & Hm & _)%list_elem_of_bind);
    try intros Hm;
    by rewrite (get_valid_moves_from _ _ _ Hm).
Qed.

Lemma owner_signs (p : Player) (piece : PieceType) :
  piece_of p piece →
  (0 <? value piece) = bool_decide (p = P1)
  ∧ (value piece <? 0) = bool_decide (p = P2).
Proof. intros [Hne Hown]. destruct p, piece; done. Qed.

Lemma capture_signs (attacker target : PieceType) :
  can_capture attacker target = true →
  (0 <? value target) = (value attacker <? 0)
  ∧ (value target <? 0) = (0 <? value attacker).
Proof. by destruct attacker, target. Qed.

(** The state in which [make_move] decides about the chain, for a legal
    move. *)
Lemma moved_legal (g : DabloGame) (m : Move) :
  m ∈ get_all_valid_moves g →
  ∃ piece,
    board_state g !! from_pos m = Some piece
    ∧ piece_of (current_player g) piece
    ∧ (relocate g m).1 = piece
    ∧ board_state (moved g m) = board_after (board_state g) piece m
    ∧ player_pieces (moved g m) (current_player g)
      = {[to_pos m]} ∪ (player_pieces g (current_player g) ∖ {[from_pos m]})
    ∧ player_pieces (moved g m) (opponent (current_player g))
      = match capture_pos m with
        | Some captured =>
            player_pieces g (opponent (current_player g)) ∖ {[captured]}
        | None => player_pieces g (opponent (current_player g))
        end.
Proof.
  intros Hlegal. apply legal_move_from_its_square in Hlegal.
  apply get_valid_moves_sound_aux in Hlegal
    as (piece & Hpiece & [Hne Hown] & _ & Hto & Hvalid).
  exists piece. split; [done |]. split; [done |].
  unfold moved, relocate, board_after. simpl.
  destruct (remove_piece_result g (from_pos m)) as (Hr1 & Hrb & Hrp1 & Hrp2).
  rewrite Hpiece in Hr1, Hrp1, Hrp2. simpl in Hr1, Hrp1, Hrp2.
  assert (Hdiff : from_pos m ≠ to_pos m) by (intros E; rewrite E in Hpiece; congruence).
  assert (Hto' : board_state (remove_piece g (from_pos m)).2 !! to_pos m
                 = Some EMPTY)
    by (rewrite Hrb, lookup_insert_ne; done).
  destruct (add_piece_placed _ _ (remove_piece g (from_pos m)).1 Hto')
    as (_ & Hab & Hap1 & Hap2).
  rewrite Hr1 in Hab, Hap1, Hap2 |- *.
  rewrite Hrb in Hab. rewrite Hrp1 in Hap1. rewrite Hrp2 in Hap2.
  split; [done |].
  unfold passes_validation in Hvalid.
  destruct (capture_pos m) as [captured |]; simpl.
  - destruct Hvalid as (target & Htarget & Hvalid).
    apply valid_capture_parts in Hvalid as (_ & Hcap & _ & _).
    assert (Hc1 : captured ≠ from_pos m).
    { intros E. rewrite E, Hpiece in Htarget. injection Htarget as <-.
      by destruct piece. }
    assert (Hc2 : captured ≠ to_pos m).
    { intros E. rewrite E, Hto in Htarget. injection Htarget as <-.
      by destruct piece. }
    match goal with
    | |- context [remove_piece ?x captured] =>
        destruct (remove_piece_result x captured) as (_ & Hcb & Hcp1 & Hcp2)
    end.
    simpl in Hcb, Hcp1, Hcp2.
    rewrite Hab in Hcb, Hcp1, Hcp2.
    rewrite !lookup_insert_ne in Hcp1, Hcp2 by done.
    rewrite Htarget in Hcp1, Hcp2. simpl in Hcp1, Hcp2.
    rewrite Hap1 in Hcp1. rewrite Hap2 in Hcp2.
    split; [exact Hcb |].
    destruct (capture_signs piece target Hcap) as (Ht1 & Ht2).
    destruct (owner_signs _ _ (conj Hne Hown)) as (Hp1 & Hp2).
    rewrite Ht1 in Hcp1. rewrite Ht2 in Hcp2.
    rewrite Hp1, Hp2 in Hcp1. rewrite Hp1, Hp2 in Hcp2.
    unfold player_pieces.
    destruct (current_player g); simpl in *; rewrite Hcp1, Hcp2; split;
      apply set_eq; intros x;
      rewrite ?elem_of_union, ?elem_of_difference, ?elem_of_singleton;
      intuition congruence.
  - split; [exact Hab |].
    destruct (owner_signs _ _ (conj Hne Hown)) as (Hp1 & Hp2).
    rewrite Hp1 in Hap1. rewrite Hp2 in Hap2.
    unfold player_pieces.
    destruct (current_player g); simpl in *; rewrite Hap1, Hap2; split;
      try reflexivity.
Qed.

Lemma make_move_keeps_moved_board (g : DabloGame) (m : Move) :
  pieces_in_sync g → game_over g = false →
  ∃ g' info,
    make_move g m = Return (g', (true, info))
    ∧ board_state g' = board_state (moved g m)
    ∧ p1_pieces g' = p1_pieces (moved g m)
    ∧ p2_pieces g' = p2_pieces (moved g m)
    ∧ move_count g' = move_count g + 1.
Proof.
  intros Hs Hactive. rewrite make_move_active by done.
  pose proof (moved_sync g m Hs) as Hm.
  pose proof (moved_move_count g m) as Hc.
  destruct (end_turn_sync (moved g m) (move_info g m false) Hm)
    as (g' & Hend & Hb & Hp1 & Hp2 & Hcount & _).
  destruct (capture_pos m) as [captured |];
    [destruct (additional_captures (moved g m) m) |];
    rewrite ?Hend; eexists _, _; (split; [reflexivity |]); simpl;
    repeat split; try done; lia.
Qed.

(** X12.  A move taken from [get_all_valid_moves] is always accepted on an
    active game, and it changes the board at the squares it names only:
    the from-square and the captured square become [EMPTY], the to-square
    receives the moving piece, and the counter grows by one. *)
Theorem legal_move_relocates_the_piece (g : DabloGame) (m : Move) :
  pieces_in_sync g →
  game_over g = false →
  m ∈ get_all_valid_moves g →
  ∃ g' info piece,
    make_move g m = Return (g', (true, info))
    ∧ board_state g !! from_pos m = Some piece
    ∧ piece_of (current_player g) piece
    ∧ board_state g' = board_after (board_state g) piece m
    ∧ (∀ pos, pos ≠ from_pos m → pos ≠ to_pos m →
              capture_pos m ≠ Some pos →
              board_state g' !! pos = board_state g !! pos)
    ∧ move_count g' = move_count g + 1.
Proof.
  intros Hs Hactive Hlegal.
  destruct (make_move_keeps_moved_board g m Hs Hactive)
    as (g' & info & Hmove & Hb & _ & _ & Hcount).
  destruct (moved_legal g m Hlegal) as (piece & Hpiece & Hown & _ & Hboard & _).
  exists g', info, piece.
  split; [done |]. split; [done |]. split; [done |].
  rewrite Hb, Hboard. split; [done |]. split; [| done].
  intros pos H1 H2 H3. unfold board_after.
  destruct (capture_pos m) as [captured |].
  - rewrite !lookup_insert_ne by congruence. done.
  - rewrite !lookup_insert_ne by congruence. done.
Qed.

Lemma legal_move_relocates_the_piece_witness :
  pieces_in_sync chain_game
  ∧ game_over chain_game = false
  ∧ first_capture ∈ get_all_valid_moves chain_game
  ∧ (∃ g' info piece,
       make_move chain_game first_capture = Return (g', (true, info))
       ∧ board_state g'
         = board_after (board_state chain_game) piece first_capture).
Proof.
  assert (Hs : pieces_in_sync chain_game) by apply init_sync.
  assert (Ha : game_over chain_game = false) by reflexivity.
  assert (Hl : first_capture ∈ get_all_valid_moves chain_game) by by_evaluation.
  split; [exact Hs |]. split; [exact Ha |]. split; [exact Hl |].
  destruct (legal_move_relocates_the_piece chain_game first_capture Hs Ha Hl)
    as (g' & info & piece & Hm & _ & _ & Hb & _).
  exists g', info, piece. split; [exact Hm | exact Hb].
Defined.

(** X13.  A legal move keeps the number of pieces of the player who moves and
    takes exactly one piece from the opponent when it is a capture, none
    otherwise. *)
Theorem legal_move_piece_counts (g : DabloGame) (m : Move) :
  pieces_in_sync g →
  game_over g = false →
  m ∈ get_all_valid_moves g →
  ∃ g' info,
    make_move g m = Return (g', (true, info))
    ∧ size (player_pieces g' (current_player g))
      = size (player_pieces g (current_player g))
    ∧ (size (player_pieces g' (opponent (current_player g)))
       + (if is_capture m then 1 else 0)
       = size (player_pieces g (opponent (current_player g))))%nat.
Proof.
  intros Hs Hactive Hlegal.
  destruct (make_move_keeps_moved_board g m Hs Hactive)
    as (g' & info & Hmove & Hb & Hp1 & Hp2 & _).
  destruct (moved_legal g m Hlegal)
    as (piece & Hpiece & [Hne Hown] & _ & _ & Hmine & Htheirs).
  exists g', info. split; [done |].
  assert (Hpp : ∀ p, player_pieces g' p = player_pieces (moved g m) p).
  { intros p. unfold player_pieces. by rewrite Hp1, Hp2. }
  rewrite !Hpp, Hmine, Htheirs.
  pose proof (legal_move_from_its_square g m Hlegal) as Hv.
  apply get_valid_moves_sound_aux in Hv as (piece' & Hpiece' & _ & _ & Hto & Hvalid).
  rewrite Hpiece in Hpiece'. injection Hpiece' as <-.
  assert (Hfrom : from_pos m ∈ player_pieces g (current_player g)).
  { unfold player_pieces. destruct (Hs (from_pos m)) as [H1 H2].
    destruct (current_player g); simpl in *.
    - apply H1. exists piece. split; [done | lia].
    - apply H2. exists piece. split; [done |]. destruct piece; simpl in *; done || lia. }
  assert (Hnew : to_pos m ∉ player_pieces g (current_player g)).
  { unfold player_pieces. destruct (Hs (to_pos m)) as [H1 H2].
    intros Hin. destruct (current_player g); simpl in *;
      [apply H1 in Hin | apply H2 in Hin];
      destruct Hin as (q & Hq & Hv); rewrite Hto in Hq; simplify_eq;
      simpl in Hv; lia. }
  split.
  - rewrite size_union
      by (apply disjoint_singleton_l; rewrite elem_of_difference; tauto).
    rewrite size_singleton, size_difference by (by apply singleton_subseteq_l).
    rewrite size_singleton.
    assert (size (player_pieces g (current_player g)) ≠ 0%nat).
    { intros Hz. apply size_empty_inv in Hz. rewrite Hz in Hfrom.
      by apply not_elem_of_empty in Hfrom. }
    lia.
  - unfold is_capture, passes_validation in *.
    destruct (capture_pos m) as [captured |]; [| lia].
    destruct Hvalid as (target & Htarget & Hvalid).
    apply valid_capture_parts in Hvalid as (_ & Hcap & _ & _).
    assert (Hin : captured ∈ player_pieces g (opponent (current_player g))).
    { unfold player_pieces. destruct (Hs captured) as [H1 H2].
      destruct (current_player g); simpl in *.
      - apply H2. exists target. split; [done |].
        destruct piece, target; simpl in *; done || lia.
      - apply H1. exists target. split; [done |].
        destruct piece, target; simpl in *; done || lia. }
    rewrite size_difference by (by apply singleton_subseteq_l).
    rewrite size_singleton.
    assert (size (player_pieces g (opponent (current_player g))) ≠ 0%nat).
    { intros Hz. apply size_empty_inv in Hz. rewrite Hz in Hin.
      by apply not_elem_of_empty in Hin. }
    lia.
Qed.

Lemma legal_move_piece_counts_witness :
  pieces_in_sync chain_game
  ∧ game_over chain_game = false
  ∧ first_capture ∈ get_all_valid_moves chain_game
  ∧ (∃ g' info,
       make_move chain_game first_capture = Return (g', (true, info))
       ∧ size (player_pieces g' (current_player chain_game))
         = size (player_pieces chain_game (current_player chain_game))).
Proof.
  assert (Hs : pieces_in_sync chain_game) by apply init_sync.
  assert (Ha : game_over chain_game = false) by reflexivity.
  assert (Hl : first_capture ∈ get_all_valid_moves chain_game) by by_evaluation.
  split; [exact Hs |]. split; [exact Ha |]. split; [exact Hl |].
  destruct (legal_move_piece_counts chain_game first_capture Hs Ha Hl)
    as (g' & info & Hm & Hmine & _).
  exists g', info. split; [exact Hm | exact Hmine].
Defined.

(** ** Further properties: the end of a turn *)

(** The game that [make_move] returns with a move that ends the turn, in
    terms of the verdict on the position reached. *)
Lemma end_of_turn_game (g g' : DabloGame) (m : Move) (info : MoveInfo) :
  pieces_in_sync g →
  game_over g = false →
  make_move g m = Return (g', (true, info)) →
  chain_available info = false →
  let g2 := set_current_player (set_capture_sequence (moved g m) false None)
                               (opponent (current_player g)) in
  verdict g' = verdict g2
  ∧ g' = match (verdict g2).1 with
         | Some w => end_game g2 w (verdict g2).2
         | None => g2
         end.
Proof.
  intros Hs Hactive Hmove Hchain g2.
  rewrite make_move_active in Hmove by done.
  assert (Hend : end_turn (moved g m) (move_info g m false)
                 = Return (g', (true, info))).
  { destruct (capture_pos m); [| done].
    destruct (additional_captures _ _); [done |].
    by simplify_eq. }
  clear Hmove.
  pose proof (moved_same_turn_state g m) as (_ & _ & Hplayer & _).
  subst g2. rewrite <- Hplayer.
  set (g2 := set_current_player (set_capture_sequence (moved g m) false None)
                                (opponent (current_player (moved g m)))).
  change (exn_bind (_check_game_state g2)
                   (λ g3, Return (g3, (true, move_info g m false)))
          = Return (g', (true, info))) in Hend.
  assert (Hs2 : pieces_in_sync g2) by exact (moved_sync g m Hs).
  destruct (check_game_state_sync g2 Hs2) as (k1 & k2 & Hk1 & Hk2 & Hcheck).
  rewrite Hcheck in Hend. cbn [exn_bind] in Hend. injection Hend as Hg' _.
  assert (Hv : GameRules.check_win_condition
                 (Z.of_nat (size (p1_pieces g2))) (Z.of_nat (size (p2_pieces g2)))
                 k1 k2 (move_count g2) (move_limit (config g2))
                 (match get_all_valid_moves g2 with [] => false | _ => true end)
                 (current_player g2)
               = verdict g2).
  { unfold verdict. f_equal.
    - destruct k1; symmetry;
        [apply bool_decide_eq_true; tauto | apply bool_decide_eq_false].
      intros Hk. apply Hk1 in Hk. done.
    - destruct k2; symmetry;
        [apply bool_decide_eq_true; tauto | apply bool_decide_eq_false].
      intros Hk. apply Hk2 in Hk. done.
    - by destruct (get_all_valid_moves g2). }
  assert (Hg2 : g' = match (verdict g2).1 with
                     | Some w => end_game g2 w (verdict g2).2
                     | None => g2
                     end)
    by (rewrite <- Hv; symmetry; exact Hg').
  split; [| exact Hg2].
  rewrite Hg2. by destruct (verdict g2).1.
Qed.

Lemma end_of_turn_verdict_aux (g g' : DabloGame) (m : Move) (info : MoveInfo) :
  pieces_in_sync g →
  game_over g = false →
  make_move g m = Return (g', (true, info)) →
  chain_available info = false →
  current_player g' = opponent (current_player g)
  ∧ capture_sequence g' = false ∧ capturing_piece g' = None
  ∧ match verdict g' with
    | (Some w, reason) =>
        game_over g' = true ∧ winner g' = Some w ∧ win_reason g' = reason
    | (None, _) =>
        game_over g' = false ∧ winner g' = winner g
        ∧ win_reason g' = win_reason g
    end.
Proof.
  intros Hs Hactive Hmove Hchain.
  destruct (end_of_turn_game g g' m info Hs Hactive Hmove Hchain) as [Hv Hg'].
  pose proof (moved_same_turn_state g m) as (_ & _ & _ & Hover & Hw & Hr & _).
  cbv zeta in Hv, Hg'. rewrite Hv. clear Hv.
  destruct (verdict _) as [[w |] reason];
    simpl in Hg'; subst g';
    simpl; rewrite ?Hover, ?Hw, ?Hr; done.
Qed.

(** X14.  When a move ends the turn the turn passes, the chain marker is
    cleared, and the outcome is the verdict of [check_win_condition] on
    the position reached: if it names a winner the game is over with that
    winner and reason, otherwise the game goes on as before. *)
Theorem end_of_turn_verdict (g g' : DabloGame) (m : Move) (info : MoveInfo) :
  pieces_in_sync g →
  game_over g = false →
  make_move g m = Return (g', (true, info)) →
  chain_available info = false →
  current_player g' = opponent (current_player g)
  ∧ capture_sequence g' = false ∧ capturing_piece g' = None
  ∧ match verdict g' with
    | (Some w, reason) =>
        game_over g' = true ∧ winner g' = Some w ∧ win_reason g' = reason
    | (None, _) =>
        game_over g' = false ∧ winner g' = winner g
        ∧ win_reason g' = win_reason g
    end.
Proof. exact (end_of_turn_verdict_aux g g' m info). Qed.

Lemma end_of_turn_verdict_witness :
  pieces_in_sync last_move_game
  ∧ game_over last_move_game = false
  ∧ (∃ g' info,
       make_move last_move_game king_takes_king = Return (g', (true, info))
       ∧ chain_available info = false
       ∧ current_player g' = opponent (current_player last_move_game)).
Proof.
  assert (Hs : pieces_in_sync last_move_game) by apply init_sync.
  assert (Ha : game_over last_move_game = false) by reflexivity.
  pose (g' := end_game
                (set_current_player
                   (set_capture_sequence (moved last_move_game king_takes_king)
                                         false None) P2)
                P1 (Some KING_CAPTURE)).
  assert (Hm : make_move last_move_game king_takes_king
               = Return (g', (true, move_info last_move_game king_takes_king false)))
    by (vm_compute; reflexivity).
  split; [exact Hs |]. split; [exact Ha |].
  exists g', (move_info last_move_game king_takes_king false).
  split; [exact Hm |]. split; [reflexivity |].
  exact (proj1 (end_of_turn_verdict _ _ _ _ Hs Ha Hm eq_refl)).
Defined.

(** X15.  After a move that ends the turn, with both kings on the board: a
    side left with exactly one piece against several loses by the lone
    king rule; and if neither side is down to one piece, the counter is
    below the limit and the player now to move has no legal move, the
    player who just moved wins by stalemate. *)
Theorem lone_king_and_stalemate (g g' : DabloGame) (m : Move) (info : MoveInfo) :
  pieces_in_sync g →
  game_over g = false →
  make_move g m = Return (g', (true, info)) →
  chain_available info = false →
  king_on_board g' P1 → king_on_board g' P2 →
  (size (p2_pieces g') = 1%nat → (1 < size (p1_pieces g'))%nat →
   game_over g' = true ∧ winner g' = Some P1 ∧ win_reason g' = Some LONE_KING)
  ∧ (size (p1_pieces g') = 1%nat → (1 < size (p2_pieces g'))%nat →
     game_over g' = true ∧ winner g' = Some P2 ∧ win_reason g' = Some LONE_KING)
  ∧ (size (p1_pieces g') ≠ 1%nat → size (p2_pieces g') ≠ 1%nat →
     move_count g' < move_limit (config g') →
     get_all_valid_moves g' = [] →
     game_over g' = true ∧ winner g' = Some (current_player g)
     ∧ win_reason g' = Some STALEMATE).
Proof.
  intros Hs Hactive Hmove Hchain Hk1 Hk2.
  destruct (end_of_turn_verdict_aux g g' m info Hs Hactive Hmove Hchain)
    as (Hplayer & _ & _ & Hverdict).
  unfold verdict, GameRules.check_win_condition in Hverdict.
  rewrite !bool_decide_eq_true_2 in Hverdict by done. simpl in Hverdict.
  split; [| split].
  - intros H2 H1.
    rewrite bool_decide_eq_false_2 in Hverdict by lia.
    rewrite bool_decide_eq_false_2 in Hverdict by lia.
    rewrite bool_decide_eq_true_2 in Hverdict by lia. done.
  - intros H1 H2.
    rewrite bool_decide_eq_false_2 in Hverdict by lia.
    rewrite bool_decide_eq_true_2 in Hverdict by lia. done.
  - intros H1 H2 Hlimit Hnone.
    rewrite bool_decide_eq_false_2 in Hverdict by lia.
    rewrite bool_decide_eq_false_2 in Hverdict by lia.
    rewrite bool_decide_eq_false_2 in Hverdict by lia.
    rewrite bool_decide_eq_false_2 in Hverdict by lia.
    rewrite Hnone in Hverdict. simpl in Hverdict.
    rewrite Hplayer in Hverdict.
    destruct Hverdict as (? & Hw & ?). split; [done |]. split; [| done].
    rewrite Hw. by destruct (current_player g).
Qed.

(** X16.  A finished game, and in particular one ended by [end_game], ignores
    every further move: any sequence of moves leaves it exactly as it
    is. *)
Theorem finished_game_ignores_moves (g : DabloGame) (moves : list Move) :
  game_over g = true →
  play g moves = Return g
  ∧ ∀ w reason, play (end_game g w reason) moves = Return (end_game g w reason).
Proof.
  assert (Hplay : ∀ h, game_over h = true → play h moves = Return h).
  { intros h Hover. induction moves as [| m ms IH]; simpl; [done |].
    rewrite make_move_over by done. simpl. exact IH. }
  intros Hover. split; [by apply Hplay |].
  intros w reason. by apply Hplay.
Qed.

Lemma lone_king_and_stalemate_witness :
  pieces_in_sync lone_king_game
  ∧ game_over lone_king_game = false
  ∧ (∃ g' info,
       make_move lone_king_game first_capture = Return (g', (true, info))
       ∧ chain_available info = false
       ∧ king_on_board g' P1 ∧ king_on_board g' P2
       ∧ size (p2_pieces g') = 1%nat ∧ (1 < size (p1_pieces g'))%nat
       ∧ game_over g' = true ∧ winner g' = Some P1
       ∧ win_reason g' = Some LONE_KING).
Proof.
  assert (Hs : pieces_in_sync lone_king_game) by apply init_sync.
  assert (Ha : game_over lone_king_game = false) by reflexivity.
  pose (g' := end_game
                (set_current_player
                   (set_capture_sequence (moved lone_king_game first_capture)
                                         false None) P2)
                P1 (Some LONE_KING)).
  assert (Hm : make_move lone_king_game first_capture
               = Return (g', (true, move_info lone_king_game first_capture false)))
    by (vm_compute; reflexivity).
  assert (H1 : king_on_board g' P1) by by_evaluation.
  assert (H2 : king_on_board g' P2) by by_evaluation.
  assert (H3 : size (p2_pieces g') = 1%nat) by (vm_compute; reflexivity).
  assert (H4 : (1 < size (p1_pieces g'))%nat) by (vm_compute; lia).
  split; [exact Hs |]. split; [exact Ha |].
  exists g', (move_info lone_king_game first_capture false).
  split; [exact Hm |]. split; [reflexivity |].
  split; [exact H1 |]. split; [exact H2 |].
  split; [exact H3 |]. split; [exact H4 |].
  exact (proj1 (lone_king_and_stalemate _ _ _ _ Hs Ha Hm eq_refl H1 H2) H3 H4).
Defined.

Lemma finished_game_ignores_moves_witness :
  game_over (end_game standard_game P1 (Some STALEMATE)) = true
  ∧ play (end_game standard_game P1 (Some STALEMATE)) [far_jump]
    = Return (end_game standard_game P1 (Some STALEMATE)).
Proof.
  assert (H : game_over (end_game standard_game P1 (Some STALEMATE)) = true)
    by reflexivity.
  split; [exact H |].
  exact (proj1 (finished_game_ignores_moves _ [far_jump] H)).
Defined.

(** ** Further properties: placing and removing pieces *)

Lemma game_eq (g h : DabloGame) :
  config g = config h → board_state g = board_state h → nodes g = nodes h →
  current_player g = current_player h → game_over g = game_over h →
  winner g = winner h → win_reason g = win_reason h →
  capture_sequence g = capture_sequence h →
  capturing_piece g = capturing_piece h → move_count g = move_count h →
  last_captured_piece g = last_captured_piece h →
  p1_pieces g = p1_pieces h → p2_pieces g = p2_pieces h →
  g = h.
Proof. destruct g, h; simpl; intros; by subst. Qed.

(** X17.  Taking a piece off a key of the board and putting the removed piece
    back on the same position restores the game exactly; [remove_piece]
    returns what stood there and leaves [EMPTY] behind. *)
Theorem remove_then_add_restores (g : DabloGame) (pos : Pos) (piece : PieceType) :
  pieces_in_sync g →
  board_state g !! pos = Some piece →
  (remove_piece g pos).1 = piece
  ∧ board_state (remove_piece g pos).2 !! pos = Some EMPTY
  ∧ add_piece (remove_piece g pos).2 pos (remove_piece g pos).1 = (true, g).
Proof.
  intros Hs Hpiece.
  destruct (remove_piece_result g pos) as (Hr1 & Hrb & Hrp1 & Hrp2).
  rewrite Hpiece in Hr1, Hrp1, Hrp2. simpl in Hr1, Hrp1, Hrp2.
  split; [done |].
  assert (Hempty : board_state (remove_piece g pos).2 !! pos = Some EMPTY)
    by (by rewrite Hrb, lookup_insert_eq).
  split; [done |].
  destruct (add_piece_placed _ pos (remove_piece g pos).1 Hempty)
    as (Hok & Hab & Hap1 & Hap2).
  rewrite Hr1 in Hok, Hab, Hap1, Hap2 |- *.
  destruct (add_piece_same_turn_state (remove_piece g pos).2 pos piece)
    as [(A1 & A2 & A3 & A4 & A5 & A6 & A7 & A8) A9].
  destruct (remove_piece_same_turn_state g pos)
    as [(B1 & B2 & B3 & B4 & B5 & B6 & B7 & B8) B9].
  destruct (add_piece (remove_piece g pos).2 pos piece) as [ok g'] eqn:Hadd.
  simpl in *. subst ok. f_equal.
  destruct (Hs pos) as [Hq1 Hq2].
  apply game_eq; try congruence.
  - rewrite Hab, Hrb, insert_insert_eq. by apply insert_id.
  - unfold add_piece in Hadd. rewrite Hempty in Hadd. simpl in Hadd.
    unfold remove_piece in Hadd |- *.
    rewrite Hpiece in Hadd. simpl in Hadd.
    repeat case_match; simplify_eq; reflexivity.
  - rewrite Hap1, Hrp1. destruct (0 <? value piece) eqn:Hpos; [| done].
    assert (pos ∈ p1_pieces g) by (apply Hq1; exists piece; split; [done | lia]).
    apply set_eq. intros x. rewrite elem_of_union, elem_of_difference,
      elem_of_singleton. destruct (decide (x = pos)); subst; tauto.
  - rewrite Hap2, Hrp2. destruct (value piece <? 0) eqn:Hneg; [| done].
    assert (pos ∈ p2_pieces g) by (apply Hq2; exists piece; split; [done | lia]).
    apply set_eq. intros x. rewrite elem_of_union, elem_of_difference,
      elem_of_singleton. destruct (decide (x = pos)); subst; tauto.
Qed.

Lemma remove_then_add_restores_witness :
  pieces_in_sync standard_game
  ∧ board_state standard_game !! (6, 8) = Some P1_KING
  ∧ add_piece (remove_piece standard_game (6, 8)).2 (6, 8) P1_KING
    = (true, standard_game).
Proof.
  assert (Hs : pieces_in_sync standard_game) by apply init_sync.
  assert (Hp : board_state standard_game !! (6, 8) = Some P1_KING)
    by (vm_compute; reflexivity).
  split; [exact Hs |]. split; [exact Hp |].
  destruct (remove_then_add_restores standard_game (6, 8) P1_KING Hs Hp)
    as (Hr & _ & Hadd).
  rewrite Hr in Hadd. exact Hadd.
Defined.

(** X18.  [clear_board] keeps the keys of the board, makes every one of them
    [EMPTY], empties both sets of occupied positions and leaves no legal
    move, whoever is to move and whether or not a chain was active. *)
Theorem clear_board_leaves_nothing (g : DabloGame) :
  dom (board_state (clear_board g)) = dom (board_state g)
  ∧ (∀ pos piece, board_state (clear_board g) !! pos = Some piece →
                  piece = EMPTY)
  ∧ p1_pieces (clear_board g) = ∅
  ∧ p2_pieces (clear_board g) = ∅
  ∧ get_all_valid_moves (clear_board g) = [].
Proof.
  assert (Hall : ∀ pos piece, board_state (clear_board g) !! pos = Some piece →
                              piece = EMPTY).
  { intros pos piece. unfold clear_board; simpl. rewrite lookup_fmap.
    destruct (board_state g !! pos); simpl; congruence. }
  split; [unfold clear_board; simpl; by rewrite dom_fmap_L |].
  split; [exact Hall |]. split; [done |]. split; [done |].
  assert (Hnone : ∀ pos, get_valid_moves (clear_board g) pos = []).
  { intros pos. unfold get_valid_moves.
    destruct (board_state (clear_board g) !! pos) as [piece |] eqn:Hp; [| done].
    apply Hall in Hp as ->. done. }
  unfold get_all_valid_moves.
  destruct (capture_sequence (clear_board g)),
           (capturing_piece (clear_board g)); try apply Hnone;
    unfold player_pieces; simpl; case_bool_decide; by rewrite elements_empty.
Qed.

Lemma clear_board_leaves_nothing_witness :
  board_state (clear_board standard_game) !! (6, 8) = Some EMPTY
  ∧ get_all_valid_moves (clear_board standard_game) = [].
Proof.
  assert (H : board_state (clear_board standard_game) !! (6, 8) = Some EMPTY)
    by (vm_compute; reflexivity).
  split; [exact H |].
  exact (proj2 (proj2 (proj2 (proj2
           (clear_board_leaves_nothing standard_game))))).
Defined.

Lemma add_piece_board (g : DabloGame) (pos : Pos) (pt : PieceType) :
  board_state (add_piece g pos pt).2
  = if bool_decide (board_state g !! pos = Some EMPTY)
    then <[pos := pt]> (board_state g) else board_state g.
Proof.
  unfold add_piece.
  destruct (board_state g !! pos) as [occupant |] eqn:Hocc;
    [| by rewrite bool_decide_eq_false_2].
  case_bool_decide as Hne.
  - rewrite bool_decide_eq_false_2 by congruence. done.
  - subst occupant. rewrite bool_decide_eq_true_2 by done.
    by repeat case_match.
Qed.

Lemma fold_add_piece_places (pieces : list (Pos * PieceType)) (acc : DabloGame) :
  NoDup pieces.*1 →
  (∀ item old, item ∈ pieces → board_state acc !! item.1 = Some old →
               old = EMPTY) →
  ∀ pos,
    board_state
      (foldl (λ acc item,
                if bool_decide (item.2 ≠ EMPTY)
                then (add_piece acc item.1 item.2).2 else acc)
             acc pieces) !! pos
    = (λ old, default old ((list_to_map pieces : gmap Pos PieceType) !! pos))
        <$> board_state acc !! pos.
Proof.
  revert acc. induction pieces as [| [p pt] rest IH]; intros acc Hnd Hfree pos.
  - simpl. rewrite lookup_empty. simpl. by destruct (board_state acc !! pos).
  - apply NoDup_cons in Hnd as [Hfresh Hnd]. simpl foldl.
    set (acc1 := if bool_decide (pt ≠ EMPTY)
                 then (add_piece acc p pt).2 else acc).
    assert (Hacc1 : ∀ x, board_state acc1 !! x
                         = if bool_decide (x = p)
                           then (λ _, pt) <$> board_state acc !! p
                           else board_state acc !! x).
    { intros x. unfold acc1. case_bool_decide as Hpt.
      - rewrite add_piece_board. case_bool_decide as Hocc.
        + case_bool_decide as Hx.
          * subst x. by rewrite lookup_insert_eq, Hocc.
          * by rewrite lookup_insert_ne.
        + case_bool_decide as Hx; [| done]. subst x.
          destruct (board_state acc !! p) as [old |] eqn:Hold; [| done].
          exfalso. apply Hocc. f_equal.
          apply (Hfree (p, pt)); [by left | done].
      - subst pt. case_bool_decide as Hx; [| done]. subst x.
        destruct (board_state acc !! p) as [old |] eqn:Hold; [| done].
        simpl. f_equal. apply (Hfree (p, EMPTY)); [by left | done]. }
    rewrite (IH acc1 Hnd).
    + rewrite Hacc1. simpl. case_bool_decide as Hx.
      * subst pos. rewrite lookup_insert_eq.
        rewrite (not_elem_of_list_to_map_1 _ p Hfresh). simpl.
        by destruct (board_state acc !! p).
      * by rewrite lookup_insert_ne.
    + intros item old Hin Hold. rewrite Hacc1 in Hold.
      case_bool_decide as Hx.
      * exfalso. apply Hfresh. rewrite <- Hx.
        apply list_elem_of_fmap. by exists item.
      * apply (Hfree item); [by right | done].
Qed.

(** X19.  [setup_custom_position], given a dictionary (no position listed
    twice): afterwards every key of the board holds the piece listed for
    it, or [EMPTY] when none is listed, and entries for positions that
    are no keys of the board are ignored. *)
Theorem setup_custom_position_places (g : DabloGame)
    (pieces : list (Pos * PieceType)) (pos : Pos) :
  NoDup pieces.*1 →
  board_state (setup_custom_position g pieces) !! pos
  = (λ _, default EMPTY ((list_to_map pieces : gmap Pos PieceType) !! pos))
      <$> board_state g !! pos.
Proof.
  intros Hnd. unfold setup_custom_position.
  rewrite fold_add_piece_places; [| done |].
  - unfold clear_board; simpl. rewrite lookup_fmap.
    by destruct (board_state g !! pos).
  - intros item old _. unfold clear_board; simpl. rewrite lookup_fmap.
    destruct (board_state g !! item.1); simpl; congruence.
Qed.

Lemma setup_custom_position_places_witness :
  NoDup [((6, 4), P1_KING); ((0, 0), P2_KING); ((20, 20), P2_PRINCE)].*1
  ∧ board_state (setup_custom_position standard_game
                   [((6, 4), P1_KING); ((0, 0), P2_KING); ((20, 20), P2_PRINCE)])
      !! (6, 4) = Some P1_KING.
Proof.
  assert (Hnd : NoDup [((6, 4), P1_KING); ((0, 0), P2_KING);
                       ((20, 20), P2_PRINCE)].*1)
    by by_evaluation.
  split; [exact Hnd |].
  rewrite (setup_custom_position_places standard_game _ (6, 4) Hnd).
  vm_compute. reflexivity.
Defined.

Lemma add_setup_dom (g : DabloGame) (setup : list (PieceType * list Pos)) :
  dom (board_state (add_setup g setup)) = dom (board_state g).
Proof.
  unfold add_setup. revert g.
  induction setup as [| [piece_type positions] setup IH]; intros g; simpl;
    [done |].
  rewrite IH. clear IH. revert g.
  induction positions as [| pos positions IHp]; intros g; simpl; [done |].
  rewrite IHp, add_piece_board. case_bool_decide as Hocc; [| done].
  rewrite dom_insert_L.
  assert (pos ∈ dom (board_state g)) by (apply elem_of_dom; eauto).
  apply set_eq. intros x. rewrite elem_of_union, elem_of_singleton.
  split; [intros [-> | ?]; done | tauto].
Qed.

Lemma constructed_board_keys_aux (cfg : DabloConfig) (initial_state : string) :
  (initial_state ≠ "empty" →
   dom (board_state (__init__ cfg initial_state))
   = dom (_create_board_graph cfg))
  ∧ (initial_state = "empty" →
     board_state (__init__ cfg initial_state) = ∅
     ∧ (∀ pos piece_type,
          add_piece (__init__ cfg initial_state) pos piece_type
          = (false, __init__ cfg initial_state))
     ∧ get_all_valid_moves (__init__ cfg initial_state) = []).
Proof.
  unfold __init__. split; intros Hs.
  - rewrite bool_decide_eq_false_2 by done.
    unfold _setup_initial_pieces. rewrite !add_setup_dom. simpl.
    by rewrite dom_gset_to_gmap.
  - rewrite bool_decide_eq_true_2 by done. simpl.
    split; [done |]. split; [done |].
    unfold get_all_valid_moves, player_pieces; simpl.
    by rewrite elements_empty.
Qed.

(** X20.  A game constructed with a layout has one board key for every node
    of the graph and no other; a game constructed with
    [initial_state="empty"] has no board key at all, so that [add_piece]
    refuses every position and [get_all_valid_moves] is empty. *)
Theorem constructed_board_keys (cfg : DabloConfig) (initial_state : string) :
  (initial_state ≠ "empty" →
   dom (board_state (__init__ cfg initial_state))
   = dom (_create_board_graph cfg))
  ∧ (initial_state = "empty" →
     board_state (__init__ cfg initial_state) = ∅
     ∧ (∀ pos piece_type,
          add_piece (__init__ cfg initial_state) pos piece_type
          = (false, __init__ cfg initial_state))
     ∧ get_all_valid_moves (__init__ cfg initial_state) = []).
Proof. exact (constructed_board_keys_aux cfg initial_state). Qed.

Lemma constructed_board_keys_witness :
  "default" ≠ "empty"
  ∧ dom (board_state (__init__ create_default "default"))
    = dom (_create_board_graph create_default).
Proof.
  assert (H : "default" ≠ "empty") by discriminate.
  split; [exact H |].
  exact (proj1 (constructed_board_keys create_default "default") H).
Defined.

(** X21.  Under the bookkeeping invariant [get_king_position] raises no
    exception; a position it returns holds the king of the player, and it
    returns [None] only when that king is nowhere on the board. *)
Theorem get_king_position_finds_the_king (g : DabloGame) (p : Player) :
  pieces_in_sync g →
  ∃ r, get_king_position g p = Return r
       ∧ match r with
         | Some pos =>
             board_state g !! pos = Some (king_of p)
             ∧ pos ∈ player_pieces g p
         | None => ¬ king_on_board g p
         end.
Proof.
  intros Hs. unfold get_king_position.
  destruct (find_king_total (board_state g) (king_of p)
              (elements (player_pieces g p))) as (r & Hr & Hspec).
  { intros pos Hin. apply elem_of_elements in Hin.
    unfold player_pieces in Hin. destruct (Hs pos) as [H1 H2].
    case_bool_decide; [apply H1 in Hin | apply H2 in Hin];
      destruct Hin as (piece & -> & _); eauto. }
  exists r. split; [exact Hr |]. destruct r as [found |].
  - destruct Hspec as [Hin Hfound]. split; [done |].
    by apply elem_of_elements in Hin.
  - intros (pos & Hpos). apply (Hspec pos); [| done].
    apply elem_of_elements. unfold player_pieces, king_of in *.
    destruct (Hs pos) as [H1 H2].
    case_bool_decide; [apply H1 | apply H2]; eexists; split; eauto; simpl; lia.
Qed.

Lemma get_king_position_finds_the_king_witness :
  pieces_in_sync standard_game
  ∧ (∃ r, get_king_position standard_game P1 = Return r).
Proof.
  assert (Hs : pieces_in_sync standard_game) by apply init_sync.
  split; [exact Hs |].
  destruct (get_king_position_finds_the_king standard_game P1 Hs)
    as (r & Hr & _).
  exists r. exact Hr.
Defined.

(** ** Further properties: the what-if simulation of the evaluator *)

Lemma legal_move_squares_distinct (g : DabloGame) (m : Move) :
  m ∈ get_all_valid_moves g →
  ∃ piece,
    board_state g !! from_pos m = Some piece
    ∧ board_state g !! to_pos m = Some EMPTY
    ∧ from_pos m ≠ to_pos m
    ∧ ∀ captured, capture_pos m = Some captured →
                  captured ≠ from_pos m ∧ captured ≠ to_pos m.
Proof.
  intros Hlegal. apply legal_move_from_its_square in Hlegal.
  apply get_valid_moves_sound_aux in Hlegal
    as (piece & Hpiece & [Hne Hown] & _ & Hto & Hvalid).
  exists piece. split; [done |]. split; [done |].
  split; [intros E; rewrite E in Hpiece; congruence |].
  intros captured Hcap. unfold passes_validation in Hvalid.
  rewrite Hcap in Hvalid. destruct Hvalid as (target & Htarget & Hvalid).
  apply valid_capture_parts in Hvalid as (_ & Hcan & _ & _).
  split; intros E; rewrite E in Htarget.
  - rewrite Hpiece in Htarget. injection Htarget as <-. by destruct piece.
  - rewrite Hto in Htarget. injection Htarget as <-. by destruct piece.
Qed.

(** X22.  For a legal move the board that [_simulate_move_on_board] returns is
    the board that [make_move] produces, except that the from-square is
    no key of it at all.  Hence no move generated on a temporary game
    over the simulated board ever lands on the square the piece has just
    left. *)
Theorem simulated_board_lacks_the_from_square (npc : SmartNPCPlayer)
    (g : DabloGame) (m : Move) :
  pieces_in_sync g →
  game_over g = false →
  m ∈ get_all_valid_moves g →
  let simulated := _simulate_move_on_board (board_state g) m in
  simulated !! from_pos m = None
  ∧ (∃ g' info, make_move g m = Return (g', (true, info))
                ∧ board_state g' = <[from_pos m := EMPTY]> simulated)
  ∧ ∀ player pos m',
      m' ∈ get_valid_moves
             (_create_temp_game_state npc g simulated player) pos →
      to_pos m' ≠ from_pos m.
Proof.
  intros Hs Hactive Hlegal simulated.
  destruct (legal_move_squares_distinct g m Hlegal)
    as (piece & Hpiece & Hto & Hdiff & Hcap).
  assert (Hnone : simulated !! from_pos m = None).
  { unfold simulated, _simulate_move_on_board.
    destruct (capture_pos m) as [captured |] eqn:Hc.
    - destruct (Hcap captured eq_refl) as [Hc1 Hc2].
      rewrite !lookup_insert_ne by done. apply lookup_delete_eq.
    - rewrite lookup_insert_ne by done. apply lookup_delete_eq. }
  split; [exact Hnone |]. split.
  - destruct (make_move_keeps_moved_board g m Hs Hactive)
      as (g' & info & Hmove & Hb & _).
    destruct (moved_legal g m Hlegal) as (piece' & Hpiece' & _ & _ & Hboard & _).
    rewrite Hpiece in Hpiece'. injection Hpiece' as <-.
    exists g', info. split; [done |]. rewrite Hb, Hboard.
    unfold simulated, _simulate_move_on_board, board_after.
    rewrite Hpiece. simpl. apply map_eq. intros x.
    destruct (capture_pos m) as [captured |] eqn:Hc.
    + destruct (Hcap captured eq_refl) as [Hc1 Hc2].
      destruct (decide (x = from_pos m)) as [-> | Hx1];
        [by rewrite lookup_insert_eq, lookup_insert_ne, lookup_insert_ne,
                    lookup_insert_eq |].
      rewrite (lookup_insert_ne _ (from_pos m) x) by done.
      destruct (decide (x = captured)) as [-> | Hx2];
        [by rewrite !lookup_insert_eq |].
      rewrite !(lookup_insert_ne _ captured x) by done.
      destruct (decide (x = to_pos m)) as [-> | Hx3];
        [by rewrite !lookup_insert_eq |].
      rewrite !(lookup_insert_ne _ (to_pos m) x) by done.
      rewrite lookup_insert_ne by done. by rewrite lookup_delete_ne.
    + destruct (decide (x = from_pos m)) as [-> | Hx1];
        [by rewrite lookup_insert_eq, lookup_insert_ne, lookup_insert_eq |].
      rewrite (lookup_insert_ne _ (from_pos m) x) by done.
      destruct (decide (x = to_pos m)) as [-> | Hx3];
        [by rewrite !lookup_insert_eq |].
      rewrite !(lookup_insert_ne _ (to_pos m) x) by done.
      rewrite lookup_insert_ne by done. by rewrite lookup_delete_ne.
  - intros player pos m' Hm' E.
    apply get_valid_moves_sound_aux in Hm' as (_ & _ & _ & _ & Hfree & _).
    simpl in Hfree. rewrite E in Hfree. fold simulated in Hfree. congruence.
Qed.

Lemma simulated_board_lacks_the_from_square_witness :
  pieces_in_sync exposed_king_game
  ∧ game_over exposed_king_game = false
  ∧ quiet_step ∈ get_all_valid_moves exposed_king_game
  ∧ _simulate_move_on_board (board_state exposed_king_game) quiet_step
      !! from_pos quiet_step = None.
Proof.
  assert (Hs : pieces_in_sync exposed_king_game) by apply init_sync.
  assert (Ha : game_over exposed_king_game = false) by reflexivity.
  assert (Hl : quiet_step ∈ get_all_valid_moves exposed_king_game)
    by by_evaluation.
  split; [exact Hs |]. split; [exact Ha |]. split; [exact Hl |].
  exact (proj1 (simulated_board_lacks_the_from_square medium_npc
                  exposed_king_game quiet_step Hs Ha Hl)).
Defined.

(** ** Further properties: the heuristics that query a temporary game *)

(** X23.  [_evaluate_king_safety] returns the missing-king penalty when the
    player's king is not on the board it is given, and otherwise one of
    the four values of the distance rule; the value reserved for a king
    that can be captured is never returned. *)
Theorem king_safety_values (npc : SmartNPCPlayer) (game : DabloGame)
    (move : Move) (board : gmap Pos PieceType) :
  let score := _evaluate_king_safety npc game move board in
  let king := if bool_decide (player_id npc = P1) then P1_KING else P2_KING in
  (find_king_on_board board king = None →
   score = immediate_threat_penalty npc_king_safety)
  ∧ (find_king_on_board board king ≠ None →
     score ∈ [ close_distance_penalty npc_king_safety;
               medium_distance_penalty npc_king_safety;
               safe_distance_bonus npc_king_safety;
               very_safe_bonus npc_king_safety ])
  ∧ ¬ (score == capture_danger_penalty npc_king_safety)%Q.
Proof.
  intros score king.
  assert (Hcases : score = immediate_threat_penalty npc_king_safety
                           ∧ find_king_on_board board king = None
                   ∨ (find_king_on_board board king ≠ None
                      ∧ score ∈ [ close_distance_penalty npc_king_safety;
                                  medium_distance_penalty npc_king_safety;
                                  safe_distance_bonus npc_king_safety;
                                  very_safe_bonus npc_king_safety ])).
  { unfold score, _evaluate_king_safety. fold king.
    destruct (find_king_on_board board king) as [king_pos |]; [| by left].
    right. split; [done |].
    rewrite temp_game_offers_no_moves. simpl existsb. cbv iota.
    rewrite !elem_of_cons.
    repeat case_match; tauto. }
  split; [| split].
  - intros Hnone. destruct Hcases as [[-> _] | [Hsome _]]; done.
  - intros Hsome. destruct Hcases as [[_ Hnone] | [_ Hin]]; done.
  - destruct Hcases as [[-> _] | [_ Hin]]; [discriminate |].
    rewrite !elem_of_cons, elem_of_nil in Hin.
    destruct Hin as [-> | [-> | [-> | [-> | []]]]]; discriminate.
Qed.

Lemma king_safety_values_witness :
  find_king_on_board (board_state exposed_king_game) P1_KING ≠ None
  ∧ _evaluate_king_safety medium_npc exposed_king_game quiet_step
      (board_state exposed_king_game)
    ∈ [ close_distance_penalty npc_king_safety;
        medium_distance_penalty npc_king_safety;
        safe_distance_bonus npc_king_safety;
        very_safe_bonus npc_king_safety ].
Proof.
  assert (H : find_king_on_board (board_state exposed_king_game) P1_KING
              ≠ None) by (vm_compute; discriminate).
  split; [exact H |].
  exact (proj1 (proj2 (king_safety_values medium_npc exposed_king_game
                         quiet_step (board_state exposed_king_game))) H).
Defined.

(** X24.  [_evaluate_threat_creation] is zero for every game and board: the
    temporary game it asks for captures never offers a move. *)
Theorem threat_creation_is_zero (npc : SmartNPCPlayer) (game : DabloGame)
    (board : gmap Pos PieceType) :
  (_evaluate_threat_creation npc game board == 0)%Q.
Proof.
  unfold _evaluate_threat_creation.
  rewrite temp_game_offers_no_moves. reflexivity.
Qed.

Lemma threat_level_miss (npc : SmartNPCPlayer) (c : ThreatCache)
    (game : DabloGame) (pos : Pos) (p : Player) :
  _threat_cache c !! (board_state game, pos, p) = None →
  _get_threat_level npc c game pos p
  = (0, {| _threat_cache := <[(board_state game, pos, p) := 0]> (_threat_cache c);
           _threat_cache_hits := _threat_cache_hits c;
           _threat_cache_misses := _threat_cache_misses c + 1 |}).
Proof.
  intros Hmiss. unfold _get_threat_level. rewrite Hmiss.
  rewrite temp_game_offers_no_moves. reflexivity.
Qed.

(** X25.  [_get_threat_level] is memoised: whatever the first call did, a
    second call with the same board, position and player is a cache hit
    that returns the same level, leaves the table and the miss counter
    alone and adds one to the hit counter.  Every call adds exactly one
    to the sum of the two counters. *)
Theorem threat_level_is_memoised (npc : SmartNPCPlayer) (c : ThreatCache)
    (game : DabloGame) (pos : Pos) (p : Player) :
  let first := _get_threat_level npc c game pos p in
  let second := _get_threat_level npc first.2 game pos p in
  second.1 = first.1
  ∧ _threat_cache second.2 = _threat_cache first.2
  ∧ _threat_cache_hits second.2 = _threat_cache_hits first.2 + 1
  ∧ _threat_cache_misses second.2 = _threat_cache_misses first.2
  ∧ _threat_cache_hits first.2 + _threat_cache_misses first.2
    = _threat_cache_hits c + _threat_cache_misses c + 1.
Proof.
  intros first second.
  destruct (_threat_cache c !! (board_state game, pos, p)) as [known |] eqn:Hc.
  - assert (Hfirst : first = (known,
              {| _threat_cache := _threat_cache c;
                 _threat_cache_hits := _threat_cache_hits c + 1;
                 _threat_cache_misses := _threat_cache_misses c |})).
    { unfold first, _get_threat_level. by rewrite Hc. }
    unfold second. rewrite Hfirst. simpl.
    unfold _get_threat_level. simpl. rewrite Hc. simpl.
    repeat split; lia.
  - unfold second, first. rewrite (threat_level_miss _ _ _ _ _ Hc). simpl.
    unfold _get_threat_level. simpl. rewrite lookup_insert_eq. simpl.
    repeat split; lia.
Qed.

(** X26.  With a memo table that holds only zeros, in particular a new or a
    cleared one, [_get_threat_level] returns zero and the table still
    holds only zeros; [_evaluate_piece_protection] then returns zero for
    every move. *)
Theorem threat_level_and_protection_are_zero (npc : SmartNPCPlayer)
    (c : ThreatCache) (game : DabloGame) (move : Move) (pos : Pos)
    (p : Player) (board_after_move : gmap Pos PieceType) :
  cache_all_zero c →
  (_get_threat_level npc c game pos p).1 = 0
  ∧ cache_all_zero (_get_threat_level npc c game pos p).2
  ∧ (_evaluate_piece_protection npc c game move board_after_move).1 = 0%Q
  ∧ cache_all_zero
      (_evaluate_piece_protection npc c game move board_after_move).2.
Proof.
  assert (Hlevel : ∀ c' game' pos' p',
            cache_all_zero c' →
            (_get_threat_level npc c' game' pos' p').1 = 0
            ∧ cache_all_zero (_get_threat_level npc c' game' pos' p').2).
  { intros c' game' pos' p' Hzero.
    destruct (_threat_cache c' !! (board_state game', pos', p'))
      as [known |] eqn:Hc.
    - unfold _get_threat_level. rewrite Hc. simpl.
      split; [by eapply Hzero | exact Hzero].
    - rewrite (threat_level_miss _ _ _ _ _ Hc). simpl. split; [done |].
      intros key level. simpl.
      destruct (decide (key = (board_state game', pos', p'))) as [-> | Hk].
      + rewrite lookup_insert_eq. congruence.
      + rewrite lookup_insert_ne by done. apply Hzero. }
  intros Hzero. destruct (Hlevel c game pos p Hzero) as [H1 H2].
  split; [exact H1 |]. split; [exact H2 |].
  unfold _evaluate_piece_protection.
  destruct (board_state game !! from_pos move) as [moving_piece |]; [| done].
  case_bool_decide; [done |].
  destruct (Qltb _ _); [done |].
  destruct (Hlevel c game (from_pos move) (player_id npc) Hzero) as [Hb1 Hb2].
  rewrite bool_decide_eq_true_2 by done. done.
Qed.

Lemma threat_level_and_protection_are_zero_witness :
  cache_all_zero new_cache
  ∧ (_get_threat_level medium_npc new_cache exposed_king_game (6, 4) P1).1 = 0.
Proof.
  assert (H : cache_all_zero new_cache) by (intros key level Hl; done).
  split; [exact H |].
  exact (proj1 (threat_level_and_protection_are_zero medium_npc new_cache
                  exposed_king_game quiet_step (6, 4) P1 ∅ H)).
Defined.

(** ** Further properties: dablo/core/utils.py *)

Lemma size_filter_insert_fresh (P : Pos * PieceType → Prop)
    `{∀ x, Decision (P x)} (m : gmap Pos PieceType) (i : Pos) (x : PieceType) :
  m !! i = None →
  size (filter P (<[i := x]> m))
  = if decide (P (i, x)) then S (size (filter P m)) else size (filter P m).
Proof.
  intros Hfresh. rewrite map_filter_insert. case_decide.
  - apply map_size_insert_None. apply map_lookup_filter_None. by left.
  - by rewrite delete_id.
Qed.

Lemma count_pieces_counts_aux (board : gmap Pos PieceType) (p : PieceType) :
  count_pieces board !! p
  = if decide (holding p board = 0%nat) then None
    else Some (Z.of_nat (holding p board)).
Proof.
  unfold count_pieces, holding. revert board p.
  apply (map_fold_weak_ind
           (λ counts m, ∀ p,
              counts !! p
              = if decide (size (filter (λ item : Pos * PieceType,
                                           item.2 = p) m) = 0%nat)
                then None
                else Some (Z.of_nat
                             (size (filter (λ item : Pos * PieceType,
                                              item.2 = p) m))))).
  - intros p. rewrite lookup_empty, map_filter_empty, map_size_empty.
    by rewrite decide_True.
  - intros i x m counts Hfresh IH p. unfold count_one.
    rewrite size_filter_insert_fresh by done. simpl.
    destruct (decide (x = p)) as [-> | Hne].
    + rewrite lookup_insert_eq, decide_False by lia.
      rewrite IH. case_decide as Hz; simpl; f_equal; lia.
    + rewrite lookup_insert_ne by done. apply IH.
Qed.

(** X27.  [count_pieces] has an entry for a piece type exactly when some
    position of the board holds it, [EMPTY] included, and the entry is
    the number of positions that hold it. *)
Theorem count_pieces_counts (board : gmap Pos PieceType) (p : PieceType) :
  count_pieces board !! p
  = if decide (holding p board = 0%nat) then None
    else Some (Z.of_nat (holding p board)).
Proof. exact (count_pieces_counts_aux board p). Qed.

Lemma holding_p1_split (board : gmap Pos PieceType) :
  holding_p1 board
  = (holding P1_WARRIOR board + holding P1_PRINCE board
     + holding P1_KING board)%nat.
Proof.
  unfold holding_p1, holding.
  induction board as [| i x m Hfresh IH] using map_ind.
  - by rewrite !map_filter_empty, !map_size_empty.
  - rewrite !size_filter_insert_fresh by done. simpl.
    destruct x; simpl; repeat case_decide; try done; try lia.
Qed.

Lemma holding_p2_split (board : gmap Pos PieceType) :
  holding_p2 board
  = (holding P2_WARRIOR board + holding P2_PRINCE board
     + holding P2_KING board)%nat.
Proof.
  unfold holding_p2, holding.
  induction board as [| i x m Hfresh IH] using map_ind.
  - by rewrite !map_filter_empty, !map_size_empty.
  - rewrite !size_filter_insert_fresh by done. simpl.
    destruct x; simpl; repeat case_decide; try done; try lia.
Qed.

Lemma count_default (board : gmap Pos PieceType) (p : PieceType) :
  default 0 (count_pieces board !! p) = Z.of_nat (holding p board).
Proof. rewrite count_pieces_counts_aux. case_decide as Hz; simpl; lia. Qed.

(** X28.  On the board of a game whose sets of occupied positions agree with
    the board, the totals that [analyze_board_features] reports are the
    sizes of those sets, which are the counts that the win rules use,
    and the reported difference is their difference. *)
Theorem board_features_match_the_sets (g : DabloGame)
    (k1 k2 : option Pos) :
  pieces_in_sync g →
  let features :=
    analyze_board_features (board_state g) (move_count g) k1 k2 in
  f_p1_pieces features = Z.of_nat (size (p1_pieces g))
  ∧ f_p2_pieces features = Z.of_nat (size (p2_pieces g))
  ∧ f_piece_difference features
    = Z.of_nat (size (p1_pieces g)) - Z.of_nat (size (p2_pieces g))
  ∧ f_move_count features = move_count g.
Proof.
  intros Hs features.
  assert (H1 : p1_pieces g
               = dom (filter (λ item : Pos * PieceType, 0 < value item.2)
                             (board_state g))).
  { apply set_eq. intros pos. rewrite elem_of_dom. unfold is_Some.
    setoid_rewrite map_lookup_filter_Some. simpl. apply (Hs pos). }
  assert (H2 : p2_pieces g
               = dom (filter (λ item : Pos * PieceType, value item.2 < 0)
                             (board_state g))).
  { apply set_eq. intros pos. rewrite elem_of_dom. unfold is_Some.
    setoid_rewrite map_lookup_filter_Some. simpl. apply (Hs pos). }
  assert (E1 : size (p1_pieces g) = holding_p1 (board_state g))
    by (rewrite H1; apply size_dom).
  assert (E2 : size (p2_pieces g) = holding_p2 (board_state g))
    by (rewrite H2; apply size_dom).
  unfold features, analyze_board_features; simpl.
  rewrite !count_default, E1, E2, holding_p1_split, holding_p2_split.
  repeat split; lia.
Qed.

Lemma board_features_match_the_sets_witness :
  pieces_in_sync standard_game
  ∧ f_p1_pieces (analyze_board_features (board_state standard_game)
                   (move_count standard_game) None None)
    = Z.of_nat (size (p1_pieces standard_game)).
Proof.
  assert (Hs : pieces_in_sync standard_game) by apply init_sync.
  split; [exact Hs |].
  exact (proj1 (board_features_match_the_sets standard_game None None Hs)).
Defined.

Lemma length_filter_mono {A : Type} (P Q : A → Prop)
    `{∀ x, Decision (P x)} `{∀ x, Decision (Q x)} (l : list A) :
  (∀ x, P x → Q x) → (length (filter P l) ≤ length (filter Q l))%nat.
Proof.
  intros HPQ. induction l as [| x l IH]; [done |].
  rewrite !filter_cons. destruct (decide (P x)) as [HP | HP].
  - rewrite decide_True by auto. simpl. lia.
  - destruct (decide (Q x)); simpl; lia.
Qed.

Lemma center_fold_bound (board : gmap Pos PieceType) (l : list Pos) (acc : Z * Z) :
  let r :=
    foldl (λ acc pos,
             let piece := default EMPTY (board !! pos) in
             if 0 <? value piece then (acc.1 + 1, acc.2)
             else if value piece <? 0 then (acc.1, acc.2 + 1)
             else acc)
          acc l in
  acc.1 ≤ r.1 ∧ acc.2 ≤ r.2
  ∧ r.1 + r.2
    ≤ acc.1 + acc.2
      + Z.of_nat (length (filter (λ pos, is_Some (board !! pos)) l)).
Proof.
  revert acc. induction l as [| pos l IH]; intros acc; [simpl; lia |].
  cbn [foldl]. rewrite filter_cons.
  destruct (board !! pos) as [piece |] eqn:Hpiece.
  - change (default EMPTY (Some piece)) with piece.
    rewrite decide_True by eauto. cbn [length].
    destruct (0 <? value piece); [| destruct (value piece <? 0)];
      match goal with
      | |- context [foldl _ ?a l] => specialize (IH a)
      end; cbv zeta in IH; cbn [fst snd] in IH; cbv zeta; lia.
  - change (default EMPTY None) with EMPTY.
    rewrite decide_False by (by intros [? ?]).
    change (0 <? value EMPTY) with false. change (value EMPTY <? 0) with false.
    cbv iota. specialize (IH acc). cbv zeta in IH. cbv zeta. lia.
Qed.

(** X29.  Three of the seven positions of [get_center_positions] have one
    integral and one half-integral coordinate and are therefore no node
    of any board.  On a board whose keys are nodes of the graph the two
    numbers of [calculate_center_control] are not negative and their sum
    is at most four. *)
Theorem center_control_at_most_four (cfg : DabloConfig)
    (board : gmap Pos PieceType) :
  (∀ pos, is_Some (board !! pos) →
          is_Some (_create_board_graph cfg !! pos)) →
  (∀ pos, pos ∈ [ (5, 4); (5, 2); (5, 6) ] →
          pos ∈ get_center_positions
          ∧ _create_board_graph cfg !! pos = None)
  ∧ 0 ≤ (calculate_center_control board).1
  ∧ 0 ≤ (calculate_center_control board).2
  ∧ (calculate_center_control board).1 + (calculate_center_control board).2 ≤ 4.
Proof.
  intros Hkeys.
  assert (Hoff : ∀ pos, pos ∈ [ (5, 4); (5, 2); (5, 6) ] →
                        _create_board_graph cfg !! pos = None).
  { intros pos Hpos. apply eq_None_not_Some. intros Hsome.
    apply board_graph_nodes_aux in Hsome.
    rewrite !elem_of_cons, elem_of_nil in Hpos.
    unfold primary_node, secondary_node in Hsome.
    destruct Hpos as [-> | [-> | [-> | []]]]; simpl in Hsome;
      destruct Hsome as [(? & ? & _) | (? & ? & _)]; done. }
  assert (Hnone : ∀ pos, pos ∈ [ (5, 4); (5, 2); (5, 6) ] → board !! pos = None).
  { intros pos Hpos. apply eq_None_not_Some. intros Hsome.
    apply Hkeys in Hsome. rewrite (Hoff pos Hpos) in Hsome. by destruct Hsome. }
  split.
  { intros pos Hpos. split; [| by apply Hoff].
    rewrite !elem_of_cons, elem_of_nil in Hpos. unfold get_center_positions.
    destruct Hpos as [-> | [-> | [-> | []]]]; pick_member. }
  pose proof (center_fold_bound board get_center_positions (0, 0)) as Hfold.
  cbv zeta in Hfold. cbn [fst snd] in Hfold.
  fold (calculate_center_control board) in Hfold.
  assert (Hfour : (length (filter (λ pos, is_Some (board !! pos))
                                  get_center_positions) ≤ 4)%nat).
  { etrans;
      [apply (length_filter_mono _ (λ pos, pos ∉ [ (5, 4); (5, 2); (5, 6) ])) |].
    - intros pos Hsome Hin. rewrite (Hnone pos Hin) in Hsome. by destruct Hsome.
    - vm_compute. lia. }
  lia.
Qed.

Lemma center_control_at_most_four_witness :
  (∀ pos, is_Some (board_state standard_game !! pos) →
          is_Some (_create_board_graph create_default !! pos))
  ∧ (calculate_center_control (board_state standard_game)).1
    + (calculate_center_control (board_state standard_game)).2 ≤ 4.
Proof.
  assert (H : ∀ pos, is_Some (board_state standard_game !! pos) →
                     is_Some (_create_board_graph create_default !! pos)).
  { intros pos. rewrite <- !elem_of_dom.
    unfold standard_game.
    rewrite (proj1 (constructed_board_keys_aux create_default "default"));
      [done | discriminate]. }
  split; [exact H |].
  exact (proj2 (proj2 (proj2 (center_control_at_most_four create_default
                                (board_state standard_game) H)))).
Defined.
